(** * SML notebooks: data preparation and inference of the character-level
      seq2seq model ([lstm_seq2seq.ipynb]) and preprocessing and training
      call of the MLP classifier ([keras_introduction.ipynb]).

    The notebooks are embedded shallowly.  Python strings are lists of code
    points, dicts are finite maps, NumPy arrays are nested lists, a raised
    exception is the [Raise] branch of [result].  The calls into Keras
    ([predict]) are parameters of the development. *)

From Stdlib Require Import QArith.
From stdpp Require Import gmap list sorting vector strings.

Set Warnings "-abstract-large-number".
Open Scope nat_scope.
Open Scope list_scope.

(** ** Python values *)

(** A character is a Unicode code point; a [str] is a list of them. *)
Abbreviation char := N.
Abbreviation text := (list N).

Definition TAB : char := 9%N.
Definition NL : char := 10%N.
Definition SPACE : char := 32%N.

(** The exceptions the notebook code can raise. *)
Inductive exn : Type := NameError | KeyError | ValueError | IndexError.

Inductive result (A : Type) : Type :=
| Ok (a : A)
| Raise (e : exn).
Arguments Ok {A} a.
Arguments Raise {A} e.

Definition bind {A B} (r : result A) (k : A -> result B) : result B :=
  match r with
  | Ok a => k a
  | Raise e => Raise e
  end.

Declare Scope py_scope.
Delimit Scope py_scope with py.
Notation "x <- e ;; k" := (bind e (fun x => k))
  (at level 100, e at next level, k at level 200, right associativity) : py_scope.
Open Scope py_scope.

(** [d[k]] on a dict: [KeyError] when the key is absent. *)
Definition getitem `{Countable K} {V} (d : gmap K V) (k : K) : result V :=
  match d !! k with
  | Some v => Ok v
  | None => Raise KeyError
  end.

(** [dict(pairs)]: pairs are inserted from left to right, a later pair
    overrides an earlier one with the same key. *)
Definition py_dict `{Countable K} {V} (pairs : list (K * V)) : gmap K V :=
  fold_left (fun d p => <[p.1 := p.2]> d) pairs ∅.

(** [enumerate(l)], counting from [start]. *)
Fixpoint enumerate_from {A} (start : nat) (l : list A) : list (nat * A) :=
  match l with
  | [] => []
  | x :: l' => (start, x) :: enumerate_from (S start) l'
  end.
Definition enumerate {A} (l : list A) : list (nat * A) := enumerate_from 0 l.

(** ** NumPy arrays

    The float arrays of the seq2seq notebook only ever hold values the code
    writes or that the model returns; they are rationals here ([0.0] and
    [1.0] are exact). *)
Abbreviation vector := (list Q).
Abbreviation matrix := (list (list Q)).
Abbreviation tensor := (list (list (list Q))).

(** [np.zeros((n, m, k))] *)
Definition np_zeros3 (n m k : nat) : tensor :=
  replicate n (replicate m (replicate k 0%Q)).

(** [a[i, t, k] = v] for non-negative indices: [IndexError] out of bounds. *)
Definition setitem3 (a : tensor) (i t k : nat) (v : Q) : result tensor :=
  match a !! i with
  | None => Raise IndexError
  | Some m =>
      match m !! t with
      | None => Raise IndexError
      | Some row =>
          if decide (k < length row)
          then Ok (<[i := <[t := <[k := v]> row]> m]> a)
          else Raise IndexError
      end
  end.

(** [np.argmax(v)] on a one-dimensional array: the index of the first
    maximum, [ValueError] on an empty array.  The entries are compared as
    numbers; a NaN among them is outside this model. *)
Fixpoint argmax_from (best_i : nat) (best : Q) (i : nat) (v : vector) : nat :=
  match v with
  | [] => best_i
  | x :: v' =>
      if Qle_bool x best
      then argmax_from best_i best (S i) v'
      else argmax_from i x (S i) v'
  end.

Definition np_argmax (v : vector) : result nat :=
  match v with
  | [] => Raise ValueError
  | x :: v' => Ok (argmax_from 0 x 1 v')
  end.

(** [a[0, -1, :]]: the last row of the first batch element. *)
Definition item_0_last (a : tensor) : result vector :=
  match a !! 0 with
  | None => Raise IndexError
  | Some m =>
      match last m with
      | None => Raise IndexError
      | Some row => Ok row
      end
  end.

(** For [k < n], the vector of length [n] that is [1.0] at [k] and [0.0]
    elsewhere. *)
Definition one_hot (n k : nat) : vector := <[k := 1%Q]> (replicate n 0%Q).

(** [k] is the index of the first maximum of [v]. *)
Definition first_maximum (v : vector) (k : nat) : Prop :=
  exists x, v !! k = Some x
    /\ (forall j y, v !! j = Some y -> (y <= x)%Q)
    /\ (forall j y, j < k -> v !! j = Some y -> (y < x)%Q).

(** ** Data preparation: the vectorization cell *)

(** Configuration cell. *)
Definition batch_size : nat := 64.
Definition epochs : nat := 100.
Definition latent_dim : nat := 256.
Definition num_samples : nat := 10000.

(** [s.split(sep)] for a one-character separator. *)
Fixpoint split (sep : char) (s : text) : list text :=
  match s with
  | [] => [[]]
  | c :: s' =>
      if (c =? sep)%N then [] :: split sep s'
      else
        match split sep s' with
        | [] => [[c]]
        | field :: fields => (c :: field) :: fields
        end
  end.

(** [for x in l: body], threading the variables the body assigns and
    stopping at the first exception. *)
Fixpoint for_each {A S} (body : S -> A -> result S) (l : list A) (s : S)
  : result S :=
  match l with
  | [] => Ok s
  | x :: l' => s' <- body s x ;; for_each body l' s'
  end.

(** [max(l)]: [ValueError] on an empty list. *)
Definition py_max (l : list nat) : result nat :=
  match l with
  | [] => Raise ValueError
  | x :: l' => Ok (fold_left Nat.max l' x)
  end.

(** [sorted(list(s))] for a set of characters. *)
Definition sorted (s : gset N) : text := merge_sort N.le (elements s).

(** The variables the reading loop assigns. *)
Record corpus : Type := Corpus {
  corpus_input_texts : list text;
  corpus_target_texts : list text;
  corpus_input_characters : gset N;
  corpus_target_characters : gset N
}.

(** [for char in txt: if char not in s: s.add(char)] *)
Definition add_characters (s : gset N) (txt : text) : gset N :=
  fold_left (fun s c => if decide (c ∈ s) then s else {[c]} ∪ s) txt s.

(** The body of [for line in lines[...]]; the unpacking into three names
    raises [ValueError] unless the line has exactly three fields. *)
Definition read_line (cp : corpus) (line : text) : result corpus :=
  match split TAB line with
  | [input_text; target_text; _] =>
      let target_text := [TAB] ++ target_text ++ [NL] in
      Ok (Corpus (corpus_input_texts cp ++ [input_text])
                 (corpus_target_texts cp ++ [target_text])
                 (add_characters (corpus_input_characters cp) input_text)
                 (add_characters (corpus_target_characters cp) target_text))
  | _ => Raise ValueError
  end.

(** The globals the cell defines, apart from the three arrays. *)
Record tables : Type := Tables {
  input_texts : list text;
  target_texts : list text;
  input_characters : text;
  target_characters : text;
  num_encoder_tokens : nat;
  num_decoder_tokens : nat;
  max_encoder_seq_length : nat;
  max_decoder_seq_length : nat;
  input_token_index : gmap N nat;
  target_token_index : gmap N nat
}.

Record arrays : Type := Arrays {
  encoder_input_data : tensor;
  decoder_input_data : tensor;
  decoder_target_data : tensor
}.

(** [dict([(char, i) for i, char in enumerate(characters)])] *)
Definition token_index (characters : text) : gmap N nat :=
  py_dict ((fun p => (p.2, p.1)) <$> enumerate characters).

(** [lines[: min(num_samples, len(lines) - 1)]] for
    [lines = data.split("\n")]: the lines the reading loop visits. *)
Definition loaded_lines (data : text) : list text :=
  let lines := split NL data in
  take (Nat.min num_samples (length lines - 1)) lines.

(** The statements of the cell from [input_texts = []] to the allocation of
    [decoder_target_data]; [data] is what [f.read()] returns. *)
Definition load_phase (data : text) : result (tables * arrays) :=
  cp <- for_each read_line (loaded_lines data) (Corpus [] [] ∅ ∅) ;;
  let input_texts := corpus_input_texts cp in
  let target_texts := corpus_target_texts cp in
  let input_characters := sorted (corpus_input_characters cp) in
  let target_characters := sorted (corpus_target_characters cp) in
  let num_encoder_tokens := length input_characters in
  let num_decoder_tokens := length target_characters in
  max_encoder_seq_length <- py_max (length <$> input_texts) ;;
  max_decoder_seq_length <- py_max (length <$> target_texts) ;;
  let input_token_index := token_index input_characters in
  let target_token_index := token_index target_characters in
  let encoder_input_data :=
    np_zeros3 (length input_texts) max_encoder_seq_length num_encoder_tokens in
  let decoder_input_data :=
    np_zeros3 (length input_texts) max_decoder_seq_length num_decoder_tokens in
  let decoder_target_data :=
    np_zeros3 (length input_texts) max_decoder_seq_length num_decoder_tokens in
  Ok (Tables input_texts target_texts input_characters target_characters
             num_encoder_tokens num_decoder_tokens
             max_encoder_seq_length max_decoder_seq_length
             input_token_index target_token_index,
      Arrays encoder_input_data decoder_input_data decoder_target_data).

(** The names bound in the kernel when the line between the allocation of
    the arrays and the filling loops is reached: by the import cell, by the
    configuration cell and by the statements of this cell above that line.
    No built-in of Python is called [w]. *)
Definition bound_names : list string :=
  ["np"; "tf"; "keras";
   "batch_size"; "epochs"; "latent_dim"; "num_samples"; "data_path";
   "input_texts"; "target_texts"; "input_characters"; "target_characters";
   "f"; "lines"; "line"; "input_text"; "target_text"; "_"; "char";
   "num_encoder_tokens"; "num_decoder_tokens";
   "max_encoder_seq_length"; "max_decoder_seq_length";
   "input_token_index"; "target_token_index";
   "encoder_input_data"; "decoder_input_data"; "decoder_target_data"]%string.

(** An expression statement that is a bare name. *)
Definition eval_name (x : string) : result unit :=
  if decide (x ∈ bound_names) then Ok () else Raise NameError.

(** Reading a loop variable that leaks out of its [for] loop: [NameError]
    when no pass of the loop has bound it. *)
Definition read_var {A} (x : option A) : result A :=
  match x with
  | Some v => Ok v
  | None => Raise NameError
  end.

(** [a[i, s:, k] = v] on a rectangular array: the integer indices are
    checked against the shape, the slice may be empty. *)
Definition setslice3 (a : tensor) (i s k : nat) (v : Q) : result tensor :=
  match a !! i with
  | None => Raise IndexError
  | Some m =>
      if decide (Forall (fun row => k < length row) m)
      then Ok (<[i := take s m ++ ((fun row => <[k := v]> row) <$> drop s m)]> a)
      else Raise IndexError
  end.

(** The variables the filling loops assign: the loop variable [t], which
    stays bound from one sample to the next, and the three arrays. *)
Record fill_state : Type := FillState {
  var_t : option nat;
  fill_arrays : arrays
}.

Section Fill.
Variable g : tables.

(** Body of [for t, char in enumerate(input_text)] for sample [i]. *)
Definition fill_input_char (i : nat) (st : fill_state) (p : nat * char)
  : result fill_state :=
  let '(t, char) := p in
  let a := fill_arrays st in
  k <- getitem (input_token_index g) char ;;
  enc <- setitem3 (encoder_input_data a) i t k 1%Q ;;
  Ok (FillState (Some t)
        (Arrays enc (decoder_input_data a) (decoder_target_data a))).

(** Body of [for t, char in enumerate(target_text)] for sample [i]. *)
Definition fill_target_char (i : nat) (st : fill_state) (p : nat * char)
  : result fill_state :=
  let '(t, char) := p in
  let a := fill_arrays st in
  k <- getitem (target_token_index g) char ;;
  dec <- setitem3 (decoder_input_data a) i t k 1%Q ;;
  tgt <- (if decide (0 < t)
          then k' <- getitem (target_token_index g) char ;;
               setitem3 (decoder_target_data a) i (t - 1) k' 1%Q
          else Ok (decoder_target_data a)) ;;
  Ok (FillState (Some t) (Arrays (encoder_input_data a) dec tgt)).

(** First half of the body of the loop over the samples: the loop over
    [input_text] and the padding of [encoder_input_data]. *)
Definition fill_sample_input (i : nat) (input_text : text)
    (st : fill_state) : result fill_state :=
  st <- for_each (fill_input_char i) (enumerate input_text) st ;;
  t <- read_var (var_t st) ;;
  k <- getitem (input_token_index g) SPACE ;;
  let a := fill_arrays st in
  enc <- setslice3 (encoder_input_data a) i (t + 1) k 1%Q ;;
  Ok (FillState (var_t st)
        (Arrays enc (decoder_input_data a) (decoder_target_data a))).

(** Second half: the loop over [target_text] and the padding of
    [decoder_input_data] and [decoder_target_data]. *)
Definition fill_sample_target (i : nat) (target_text : text)
    (st : fill_state) : result fill_state :=
  st <- for_each (fill_target_char i) (enumerate target_text) st ;;
  t <- read_var (var_t st) ;;
  k <- getitem (target_token_index g) SPACE ;;
  let a := fill_arrays st in
  dec <- setslice3 (decoder_input_data a) i (t + 1) k 1%Q ;;
  t <- read_var (var_t st) ;;
  k <- getitem (target_token_index g) SPACE ;;
  tgt <- setslice3 (decoder_target_data a) i t k 1%Q ;;
  Ok (FillState (var_t st) (Arrays (encoder_input_data a) dec tgt)).

(** Body of [for i, (input_text, target_text) in enumerate(zip(...))]. *)
Definition fill_sample (st : fill_state) (p : nat * (text * text))
  : result fill_state :=
  let '(i, (input_text, target_text)) := p in
  st <- fill_sample_input i input_text st ;;
  fill_sample_target i target_text st.

(** The filling loops (the [for] statement that ends the cell), started
    with [t] unbound. *)
Definition fill_phase (a : arrays) : result arrays :=
  st <- for_each fill_sample
          (enumerate (zip (input_texts g) (target_texts g)))
          (FillState None a) ;;
  Ok (fill_arrays st).
End Fill.

(** The whole vectorization cell. *)
Definition vectorize_cell (data : text) : result (tables * arrays) :=
  ga <- load_phase data ;;
  _ <- eval_name "w" ;;
  a <- fill_phase ga.1 ga.2 ;;
  Ok (ga.1, a).

(** ** What the cell establishes, in closed form *)

(** The texts read so far use only the characters collected so far, the
    two lists of texts go in step, and every target text is wrapped in the
    start and end characters. *)
Definition corpus_ok (cp : corpus) : Prop :=
  length (corpus_input_texts cp) = length (corpus_target_texts cp)
  /\ Forall (Forall (fun c => c ∈ corpus_input_characters cp))
       (corpus_input_texts cp)
  /\ Forall (fun txt => Forall (fun c => c ∈ corpus_target_characters cp) txt
                        /\ exists body, txt = TAB :: body ++ [NL])
       (corpus_target_texts cp).

(** What the statements above the filling loops establish about the
    tables. *)
Record tables_wf (g : tables) : Prop := TablesWf {
  wf_samples : length (input_texts g) = length (target_texts g);
  wf_input_NoDup : NoDup (input_characters g);
  wf_target_NoDup : NoDup (target_characters g);
  wf_num_encoder_tokens : num_encoder_tokens g = length (input_characters g);
  wf_num_decoder_tokens : num_decoder_tokens g = length (target_characters g);
  wf_input_token_index : input_token_index g = token_index (input_characters g);
  wf_target_token_index :
    target_token_index g = token_index (target_characters g);
  wf_input_texts :
    Forall (fun txt => length txt <= max_encoder_seq_length g
                       /\ Forall (fun c => c ∈ input_characters g) txt)
      (input_texts g);
  wf_target_texts :
    Forall (fun txt => length txt <= max_decoder_seq_length g
                       /\ Forall (fun c => c ∈ target_characters g) txt
                       /\ exists body, txt = TAB :: body ++ [NL])
      (target_texts g)
}.

(** The arrays as the cell allocates them. *)
Definition zero_arrays (g : tables) : arrays :=
  Arrays
    (np_zeros3 (length (input_texts g)) (max_encoder_seq_length g)
       (num_encoder_tokens g))
    (np_zeros3 (length (input_texts g)) (max_decoder_seq_length g)
       (num_decoder_tokens g))
    (np_zeros3 (length (input_texts g)) (max_decoder_seq_length g)
       (num_decoder_tokens g)).

(** The row for character [c]: 1.0 at the index of [c]. *)
Definition encode (index : gmap N nat) (n : nat) (c : char) : vector :=
  one_hot n (default 0 (index !! c)).

(** The rows of a text in an array of [rows] timesteps: its characters,
    then the space character up to the last timestep. *)
Definition encode_text (index : gmap N nat) (n rows : nat) (txt : text)
  : matrix :=
  (encode index n <$> txt)
  ++ replicate (rows - length txt) (encode index n SPACE).

(** The three arrays once every sample is filled: the targets are the
    decoder inputs without their first character. *)
Definition filled_arrays (g : tables) : arrays :=
  Arrays
    (encode_text (input_token_index g) (num_encoder_tokens g)
       (max_encoder_seq_length g) <$> input_texts g)
    (encode_text (target_token_index g) (num_decoder_tokens g)
       (max_decoder_seq_length g) <$> target_texts g)
    ((fun txt => encode_text (target_token_index g) (num_decoder_tokens g)
                   (max_decoder_seq_length g) (tail txt))
       <$> target_texts g).

(** A row with exactly one entry 1.0, at [k], and 0.0 everywhere else. *)
Definition one_hot_at (n k : nat) (row : vector) : Prop :=
  length row = n /\ row !! k = Some 1%Q
  /\ forall j, j < n -> j <> k -> row !! j = Some 0%Q.

(** ** Training call of the seq2seq notebook *)

(** The arguments of a call of [model.fit]. *)
Record fit_arguments : Type := FitArguments {
  fit_x : list tensor;
  fit_y : tensor;
  fit_batch_size : nat;
  fit_epochs : nat;
  fit_validation_split : Q
}.

(** [model.fit([encoder_input_data, decoder_input_data],
    decoder_target_data, batch_size=batch_size, epochs=epochs,
    validation_split=0.2)].  The model is
    [keras.Model([encoder_inputs, decoder_inputs], decoder_outputs)]: the
    first array of [x] feeds the encoder and the second the decoder. *)
Definition seq2seq_fit (a : arrays) : fit_arguments :=
  FitArguments [encoder_input_data a; decoder_input_data a]
    (decoder_target_data a) batch_size epochs 0.2%Q.

(** ** Inference: [decode_sequence] *)

(** A state vector of the LSTM: [keras.Input(shape=(latent_dim,))]. *)
Abbreviation state_vector := (vec Q latent_dim).

(** [dict((i, char) for char, i in index.items())].  The order in which
    [items()] yields the pairs only matters for pairs with the same index. *)
Definition reverse_index (index : gmap N nat) : gmap nat N :=
  py_dict ((fun p => (p.2, p.1)) <$> map_to_list index).

Section Inference.
(** The sampling models restored from the saved model.
    [encoder_model.predict] returns the list [[h, c]];
    [decoder_model.predict] takes [[target_seq, h, c]] and returns
    [[output_tokens, h, c]]. *)
Variable encoder_model_predict : tensor -> state_vector * state_vector.
Variable decoder_model_predict :
  tensor -> state_vector * state_vector -> tensor * state_vector * state_vector.

(** The globals left by the vectorization cell. *)
Variable g : tables.

Definition reverse_input_char_index : gmap nat N :=
  reverse_index (input_token_index g).
Definition reverse_target_char_index : gmap nat N :=
  reverse_index (target_token_index g).

(** The local variables of the sampling loop. *)
Record loop_state : Type := LoopState {
  target_seq : tensor;
  states_value : state_vector * state_vector;
  stop_condition : bool;
  decoded_sentence : text
}.

(** The statements of [decode_sequence] before the loop. *)
Definition decode_init (input_seq : tensor) : result loop_state :=
  let states_value := encoder_model_predict input_seq in
  let target_seq := np_zeros3 1 1 (num_decoder_tokens g) in
  start <- getitem (target_token_index g) TAB ;;
  target_seq <- setitem3 target_seq 0 0 start 1%Q ;;
  Ok (LoopState target_seq states_value false []).

(** One pass through the body of [while not stop_condition]. *)
Definition loop_body (st : loop_state) : result loop_state :=
  let '(output_tokens, h, c) :=
    decoder_model_predict (target_seq st) (states_value st) in
  scores <- item_0_last output_tokens ;;
  sampled_token_index <- np_argmax scores ;;
  sampled_char <- getitem reverse_target_char_index sampled_token_index ;;
  let decoded_sentence := decoded_sentence st ++ [sampled_char] in
  let stop_condition :=
    if (sampled_char =? NL)%N
       || (max_decoder_seq_length g <? length decoded_sentence)
    then true else stop_condition st in
  let target_seq := np_zeros3 1 1 (num_decoder_tokens g) in
  target_seq <- setitem3 target_seq 0 0 sampled_token_index 1%Q ;;
  Ok (LoopState target_seq (h, c) stop_condition decoded_sentence).

(** The [while] loop, with the number of passes started so far.  [None]
    means that [fuel] passes were not enough to leave the loop. *)
Fixpoint sampling_loop (fuel iters : nat) (st : loop_state)
  : option (result loop_state * nat) :=
  if stop_condition st then Some (Ok st, iters)
  else
    match fuel with
    | 0 => None
    | S fuel' =>
        match loop_body st with
        | Raise e => Some (Raise e, S iters)
        | Ok st' => sampling_loop fuel' (S iters) st'
        end
    end.

(** [decode_sequence(input_seq)]: the returned sentence (or the exception
    raised) and the number of passes through the loop. *)
Definition decode_sequence (fuel : nat) (input_seq : tensor)
  : option (result text * nat) :=
  match decode_init input_seq with
  | Raise e => Some (Raise e, 0)
  | Ok st =>
      match sampling_loop fuel 0 st with
      | None => None
      | Some (Ok st', n) => Some (Ok (decoded_sentence st'), n)
      | Some (Raise e, n) => Some (Raise e, n)
      end
  end.
End Inference.

(** The shape of the decoded sentence in the sampling loop: while the loop
    runs it holds at most [max_decoder_seq_length] characters, none of them
    the sentinel; once the loop has stopped, that is true of all but its
    last character, which is the sentinel or comes at position
    [max_decoder_seq_length]. *)
Definition sentence_inv (g : tables) (st : loop_state) : Prop :=
  if stop_condition st
  then exists init c,
      decoded_sentence st = init ++ [c]
      /\ (NL ∉ init) /\ length init <= max_decoder_seq_length g
      /\ (c = NL \/ length init = max_decoder_seq_length g)
  else (NL ∉ decoded_sentence st)
       /\ length (decoded_sentence st) <= max_decoder_seq_length g.

(** ** The MLP notebook: preprocessing *)

(** The image arrays [cifar10.load_data()] returns: [uint8] values indexed
    by image, row, column and channel. *)
Abbreviation images := (list (list (list (list Z)))).

(** [X.ravel()]: the elements in C order. *)
Definition ravel4 {A} (X : list (list (list (list A)))) : list A :=
  concat (concat (concat X)).

(** Cutting a flat buffer into [rows] rows of [cols] elements. *)
Fixpoint rows_of {A} (rows cols : nat) (flat : list A) : list (list A) :=
  match rows with
  | 0 => []
  | S rows' => take cols flat :: rows_of rows' cols (drop cols flat)
  end.

(** [X.reshape(rows, cols)]: [ValueError] when the sizes do not agree. *)
Definition reshape {A} (rows cols : nat) (X : list (list (list (list A))))
  : result (list (list A)) :=
  let flat := ravel4 X in
  if decide (length flat = rows * cols)
  then Ok (rows_of rows cols flat)
  else Raise ValueError.

(** An array of [n] images of 32 rows, 32 columns and 3 channels, the shape
    of the CIFAR-10 arrays. *)
Definition image_shape (n : nat) (X : images) : Prop :=
  length X = n
  /\ Forall (fun img =>
       length img = 32
       /\ Forall (fun row =>
            length row = 32 /\ Forall (fun px => length px = 3) row) img) X.

(** The element of [X] at image [i], row [r], column [c], channel [ch]. *)
Definition pixel (X : images) (i r c ch : nat) : option Z :=
  ((X !! i ≫= (.!! r)) ≫= (.!! c)) ≫= (.!! ch).

(** The element of a two-dimensional array at row [i], column [j]. *)
Definition item2 {A} (X : list (list A)) (i j : nat) : option A :=
  X !! i ≫= (.!! j).

Section Preprocess.
(** NumPy's [float64] and the operations the cell applies to it: the
    conversion of a [uint8] element, subtraction, division, and the
    reductions [np.mean] and [np.std] of a whole two-dimensional array. *)
Variable float64 : Type.
Variable of_uint8 : Z -> float64.
Variable float_sub float_div : float64 -> float64 -> float64.
Variable np_mean np_std : list (list Z) -> float64.

(** [(X - np.mean(X)) / np.std(X)]: both scalars are broadcast over [X]. *)
Definition gaussian_normalization (X : list (list Z))
  : list (list float64) :=
  let mean := np_mean X in
  let std := np_std X in
  map (map (fun x => float_div (float_sub (of_uint8 x) mean) std)) X.

(** The preprocessing cell, up to the normalization of [X_test]. *)
Definition preprocess (X_train X_test : images)
  : result (list (list float64) * list (list float64)) :=
  X_train <- reshape 50000 3072 X_train ;;
  X_test <- reshape 10000 3072 X_test ;;
  let X_train := gaussian_normalization X_train in
  let X_test := gaussian_normalization X_test in
  Ok (X_train, X_test).
End Preprocess.

(** ** The MLP notebook: the training call *)

(** Modelled from the spec: the early-stopping callback and the training
    loop are the framework's ([keras.callbacks.EarlyStopping] and
    [Model.fit]), not code of the notebook.  The callback keeps the best
    value of the monitored validation metric seen so far ([None] before the
    first epoch) and the number [wait] of epochs since it last improved,
    and halts training once [wait] reaches [patience]. *)
Record early_stopping : Type := EarlyStopping {
  patience : nat;
  wait : nat;
  best : option Q
}.

(** Modelled from the spec: the monitored metric is a loss, an epoch
    improves when its value is strictly below the best one so far. *)
Definition is_improvement (current : Q) (best : option Q) : bool :=
  match best with
  | None => true
  | Some b => negb (Qle_bool b current)
  end.

(** Modelled from the spec: what the callback does at the end of an epoch;
    the boolean is the request to stop training. *)
Definition on_epoch_end (cb : early_stopping) (current : Q)
  : early_stopping * bool :=
  if is_improvement current (best cb)
  then (EarlyStopping (patience cb) 0 (Some current), false)
  else (EarlyStopping (patience cb) (S (wait cb)) (best cb),
        patience cb <=? S (wait cb)).

(** Modelled from the spec: the training loop runs at most [remaining] more
    epochs, calls the callback after each one and stops when asked to.
    [monitored e] is the value of the validation metric after epoch [e]
    (counted from 0); the result is the number of epochs run. *)
Fixpoint run_epochs (monitored : nat -> Q) (remaining epoch : nat)
    (cb : early_stopping) : nat :=
  match remaining with
  | 0 => epoch
  | S remaining' =>
      let '(cb', stop_training) := on_epoch_end cb (monitored epoch) in
      if stop_training then S epoch
      else run_epochs monitored remaining' (S epoch) cb'
  end.

(** [early_stopping_monitor = EarlyStopping(patience=7)] *)
Definition early_stopping_monitor : early_stopping := EarlyStopping 7 0 None.

(** [model.fit(..., epochs=50, callbacks=[early_stopping_monitor])]: the
    number of epochs the call runs. *)
Definition model_fit (monitored : nat -> Q) : nat :=
  run_epochs monitored 50 0 early_stopping_monitor.

(** The validation losses printed under the training cell. *)
Definition recorded_val_loss : list Q :=
  [1.9140; 1.9091; 1.9059; 1.9148; 1.8966; 1.9039; 1.9057; 1.9137; 1.8966;
   1.8828; 1.8530; 1.8369; 1.8236; 1.8113; 1.7987; 1.7848; 1.7843; 1.7708;
   1.7406; 1.7139; 1.7124; 1.7223; 1.7059; 1.7266; 1.7077; 1.7217; 1.7157;
   1.7092; 1.7001; 1.7051; 1.6940; 1.6756; 1.6754; 1.6936; 1.7030; 1.6593;
   1.6834; 1.6368; 1.6654; 1.6495; 1.6682; 1.6326; 1.6659; 1.6502; 1.6457;
   1.6449; 1.6477; 1.6721; 1.6388]%Q.

(** ** Toy instances, used to run the definitions on concrete inputs *)

(** A data file of two lines,
    ["a b<TAB>c d<TAB>x<NL>b<TAB>e f<TAB>y<NL>"]. *)
Definition sample_data : text :=
  [97; 32; 98; 9; 99; 32; 100; 9; 120; 10;
   98; 9; 101; 32; 102; 9; 121; 10]%N.

(** The tables the vectorization cell builds from [sample_data]: the target
    characters are TAB, NL, space, c, d, e and f, with indices 0 to 6, and
    the longest target text has 5 characters. *)
Definition sample_tables : tables :=
  match load_phase sample_data with
  | Ok ga => ga.1
  | Raise _ => Tables [] [] [] [] 0 0 0 0 ∅ ∅
  end.

(** An encoder that maps every input to the zero state. *)
Definition toy_encoder (_ : tensor) : state_vector * state_vector :=
  (vreplicate latent_dim 0%Q, vreplicate latent_dim 0%Q).

(** A decoder that answers from a table: it puts all the weight on token
    [next prev], where [prev] is the token set in the target sequence it is
    given. *)
Definition toy_decoder (next : nat -> nat) (target_seq : tensor)
    (states : state_vector * state_vector)
  : tensor * state_vector * state_vector :=
  let prev :=
    match item_0_last target_seq with
    | Ok row => match np_argmax row with Ok k => k | Raise _ => 0 end
    | Raise _ => 0
    end in
  ([[one_hot 7 (next prev)]], states.1, states.2).

(** After the start token: c, d, c, d, ... *)
Definition next_cd (prev : nat) : nat :=
  match prev with
  | 3 => 4
  | _ => 3
  end.

(** After the start token: c, d, e, f, space and then NL. *)
Definition next_late_stop (prev : nat) : nat :=
  match prev with
  | 0 => 3
  | 3 => 4
  | 4 => 5
  | 5 => 6
  | 6 => 2
  | _ => 1
  end.

(** The state in which the sampling loop starts on [sample_tables]. *)
Definition toy_start : loop_state :=
  LoopState [[one_hot 7 0]] (toy_encoder []) false [].

(** A data file whose lines have two fields each, ["a b<TAB>c d<NL>e<TAB>f"];
    the text after the last line break is not read. *)
Definition two_field_data : text :=
  [97; 32; 98; 9; 99; 32; 100; 10; 101; 9; 102]%N.

(** A data file without a space character, ["a<TAB>b<TAB>x<NL>"]. *)
Definition no_space_data : text := [97; 9; 98; 9; 120; 10]%N.

(** A data file whose first input text is empty,
    ["<TAB>b c<TAB>x<NL>a b<TAB>c<TAB>y<NL>"]. *)
Definition empty_input_data : text :=
  [9; 98; 32; 99; 9; 120; 10; 97; 32; 98; 9; 99; 9; 121; 10]%N.

(** An array of [n] black images. *)
Definition blank_images (n : nat) : images :=
  replicate n (replicate 32 (replicate 32 (replicate 3 0%Z))).

(** Epoch [e] improves the monitored metric: its value is strictly below
    the value of every earlier epoch. *)
Definition improves (monitored : nat -> Q) (e : nat) : Prop :=
  forall j, j < e -> (monitored e < monitored j)%Q.

(** After epoch [e] the metric has failed to improve for 7 consecutive
    epochs, [e - 6] to [e]. *)
Definition stalled (monitored : nat -> Q) (e : nat) : Prop :=
  6 <= e /\ forall j, e - 6 <= j <= e -> ~ improves monitored j.

(** The state of the callback before epoch [epoch]: [best] is the least
    value seen so far, the last [wait] epochs did not improve, the epoch
    before them did, and the metric has not stalled yet. *)
Definition callback_inv (monitored : nat -> Q) (epoch : nat)
    (cb : early_stopping) : Prop :=
  patience cb = 7
  /\ wait cb < 7
  /\ ((epoch = 0 /\ wait cb = 0 /\ best cb = None)
      \/ (wait cb < epoch
          /\ (exists j, j < epoch /\ best cb = Some (monitored j)
                        /\ forall i, i < epoch ->
                             (monitored j <= monitored i)%Q)
          /\ improves monitored (epoch - wait cb - 1)))
  /\ (forall j, epoch - wait cb <= j < epoch -> ~ improves monitored j)
  /\ (forall e, e < epoch -> ~ stalled monitored e).

(** The recorded validation losses as a function of the epoch. *)
Definition recorded (e : nat) : Q := default 0%Q (recorded_val_loss !! e).

(** A data file whose second input text is empty,
    ["a b<TAB>c d<TAB>x<NL><TAB>e f<TAB>y<NL>"]. *)
Definition stale_data : text :=
  [97; 32; 98; 9; 99; 32; 100; 9; 120; 10;
   9; 101; 32; 102; 9; 121; 10]%N.

(** The tables the vectorization cell builds from [stale_data]. *)
Definition stale_tables : tables :=
  match load_phase stale_data with
  | Ok ga => ga.1
  | Raise _ => Tables [] [] [] [] 0 0 0 0 ∅ ∅
  end.

(** The arrays the filling loops leave on [stale_tables]. *)
Definition stale_arrays : arrays :=
  match fill_phase stale_tables (zero_arrays stale_tables) with
  | Ok a => a
  | Raise _ => Arrays [] [] []
  end.

(** A row that is all [0.0] or has a single [1.0]. *)
Definition one_hot_or_zero (k : nat) (row : vector) : Prop :=
  row = replicate k 0%Q \/ exists j, j < k /\ row = one_hot k j.

(** An array of shape [(n, m, k)] whose rows are one-hot or zero. *)
Definition one_hot_array (n m k : nat) (a : tensor) : Prop :=
  length a = n
  /\ Forall (fun sample => length sample = m
                           /\ Forall (one_hot_or_zero k) sample) a.

(** * Properties *)

(** ** The error monad *)

Lemma bind_Ok {A B} (r : result A) (k : A -> result B) (b : B) :
  bind r k = Ok b -> exists a, r = Ok a /\ k a = Ok b.
Proof. destruct r as [a|e]; simpl; [eauto | discriminate]. Qed.

Ltac inv_bind H :=
  let a := fresh "x" in
  let Ha := fresh "E" in
  apply bind_Ok in H; destruct H as (a & Ha & H).

Lemma getitem_Ok `{Countable K} {V} (d : gmap K V) (k : K) (v : V) :
  getitem d k = Ok v <-> d !! k = Some v.
Proof. unfold getitem. destruct (d !! k); split; congruence. Qed.

(** ** One-hot rows and [np.argmax] *)

Lemma one_hot_length n k : length (one_hot n k) = n.
Proof. unfold one_hot. by rewrite length_insert, length_replicate. Qed.

Lemma one_hot_lookup_eq n k : k < n -> one_hot n k !! k = Some 1%Q.
Proof.
  intros Hk. unfold one_hot.
  apply list_lookup_insert_eq. by rewrite length_replicate.
Qed.

Lemma one_hot_lookup_ne n k j :
  j <> k -> j < n -> one_hot n k !! j = Some 0%Q.
Proof.
  intros Hne Hj. unfold one_hot.
  rewrite list_lookup_insert_ne by done.
  by apply lookup_replicate_2.
Qed.

Lemma argmax_from_first_maximum (v pre : vector) (best_i : nat) (best : Q) :
  pre !! best_i = Some best ->
  (forall j y, pre !! j = Some y -> (y <= best)%Q) ->
  (forall j y, j < best_i -> pre !! j = Some y -> (y < best)%Q) ->
  first_maximum (pre ++ v) (argmax_from best_i best (length pre) v).
Proof.
  revert pre best_i best.
  induction v as [|x v IH]; intros pre best_i best Hbest Hle Hlt; simpl.
  - rewrite app_nil_r. exists best. auto.
  - replace (pre ++ x :: v) with ((pre ++ [x]) ++ v)
      by (by rewrite <- app_assoc).
    replace (S (length pre)) with (length (pre ++ [x]))
      by (rewrite length_app; simpl; lia).
    destruct (Qle_bool x best) eqn:Hx.
    + apply Qle_bool_iff in Hx.
      apply IH.
      * by apply lookup_app_l_Some.
      * intros j y Hj. apply lookup_app_Some in Hj as [Hj|[_ Hj]]; [eauto|].
        apply list_lookup_singleton_Some in Hj as [_ <-]. done.
      * intros j y Hjk Hj. apply lookup_app_Some in Hj as [Hj|[Hge _]]; [eauto|].
        apply lookup_lt_Some in Hbest. lia.
    + assert (best < x)%Q as Hbx.
      { apply Qnot_le_lt. intros Hc. apply Qle_bool_iff in Hc. congruence. }
      apply IH.
      * rewrite lookup_app_r by done.
        by rewrite Nat.sub_diag.
      * intros j y Hj. apply lookup_app_Some in Hj as [Hj|[_ Hj]].
        -- apply Qle_trans with best; [eauto | by apply Qlt_le_weak].
        -- apply list_lookup_singleton_Some in Hj as [_ <-]. apply Qle_refl.
      * intros j y Hjk Hj. apply lookup_app_Some in Hj as [Hj|[Hge _]]; [|lia].
        apply Qle_lt_trans with best; eauto.
Qed.

Lemma np_argmax_first_maximum (v : vector) (k : nat) :
  np_argmax v = Ok k -> first_maximum v k.
Proof.
  destruct v as [|x v]; simpl; [discriminate|].
  intros [= <-].
  apply (argmax_from_first_maximum v [x] 0 x).
  - done.
  - intros [|j] y Hj; simpl in Hj; [|by destruct j].
    injection Hj as <-. apply Qle_refl.
  - intros j y Hj. lia.
Qed.

Lemma first_maximum_lt (v : vector) (k : nat) :
  first_maximum v k -> k < length v.
Proof. intros (x & Hk & _). by apply lookup_lt_Some in Hk. Qed.

(** [np.zeros] followed by one assignment is a one-hot row. *)
Lemma setitem3_zeros_one_hot (n k : nat) (a : tensor) :
  setitem3 (np_zeros3 1 1 n) 0 0 k 1%Q = Ok a ->
  k < n /\ a = [[one_hot n k]].
Proof.
  unfold setitem3, np_zeros3. simpl.
  case_decide as Hk; [|discriminate].
  rewrite length_replicate in Hk. intros [= <-]. done.
Qed.

(** ** The sampling loop of [decode_sequence] *)

Section InferenceProperties.
Variable decoder_model_predict :
  tensor -> state_vector * state_vector -> tensor * state_vector * state_vector.
Variable g : tables.

Abbreviation body := (loop_body decoder_model_predict g).
Abbreviation cap := (max_decoder_seq_length g).
Abbreviation sentence_inv := (sentence_inv g).

(** What one successful pass through the loop body computes. *)
Lemma loop_body_Ok (st st' : loop_state) :
  body st = Ok st' ->
  exists output_tokens h c scores k ch,
    decoder_model_predict (target_seq st) (states_value st)
      = (output_tokens, h, c)
    /\ item_0_last output_tokens = Ok scores
    /\ np_argmax scores = Ok k
    /\ reverse_target_char_index g !! k = Some ch
    /\ k < num_decoder_tokens g
    /\ st' = LoopState [[one_hot (num_decoder_tokens g) k]] (h, c)
               (if (ch =? NL)%N
                   || (cap <? length (decoded_sentence st ++ [ch]))
                then true else stop_condition st)
               (decoded_sentence st ++ [ch]).
Proof.
  unfold body, loop_body. intros Hb.
  destruct (decoder_model_predict _ _) as [[output_tokens h] c].
  inv_bind Hb. inv_bind Hb. inv_bind Hb. inv_bind Hb.
  apply getitem_Ok in E1.
  apply setitem3_zeros_one_hot in E2 as [Hk ->].
  injection Hb as <-.
  exists output_tokens, h, c, x, x0, x1. done.
Qed.

Lemma loop_body_length (st st' : loop_state) :
  body st = Ok st' ->
  length (decoded_sentence st') = S (length (decoded_sentence st)).
Proof.
  intros Hb. apply loop_body_Ok in Hb as (?&?&?&?&?&ch&_&_&_&_&_&->).
  simpl. rewrite length_app. simpl. lia.
Qed.

Lemma loop_body_stop (st st' : loop_state) :
  body st = Ok st' ->
  (stop_condition st' = true <->
   stop_condition st = true
   \/ last (decoded_sentence st') = Some NL
   \/ cap < length (decoded_sentence st')).
Proof.
  intros Hb. apply loop_body_Ok in Hb as (?&?&?&?&?&ch&_&_&_&_&_&->).
  simpl. rewrite last_snoc.
  destruct (ch =? NL)%N eqn:Hch; simpl.
  - apply N.eqb_eq in Hch as ->. tauto.
  - apply N.eqb_neq in Hch.
    destruct (cap <? _) eqn:Hcap.
    + apply Nat.ltb_lt in Hcap. tauto.
    + apply Nat.ltb_ge in Hcap.
      split; [tauto|]. intros [?|[[= ?]|?]]; [done|done|lia].
Qed.

Lemma loop_body_sentence_inv (st st' : loop_state) :
  stop_condition st = false ->
  sentence_inv st -> body st = Ok st' -> sentence_inv st'.
Proof.
  unfold sentence_inv. intros Hrun Hinv Hb. rewrite Hrun in Hinv.
  destruct Hinv as [Hnl Hlen].
  apply loop_body_Ok in Hb as (?&?&?&?&?&ch&_&_&_&_&_&->).
  simpl. rewrite Hrun, length_app. simpl.
  destruct (ch =? NL)%N eqn:Hch; simpl.
  - apply N.eqb_eq in Hch. eauto 8.
  - apply N.eqb_neq in Hch.
    destruct (cap <? _) eqn:Hcap.
    + apply Nat.ltb_lt in Hcap.
      exists (decoded_sentence st), ch. repeat split; [done|done|].
      right. lia.
    + apply Nat.ltb_ge in Hcap. split; [|lia].
      rewrite elem_of_app, list_elem_of_singleton.
      intros [?|?]; [done | congruence].
Qed.

Lemma sampling_loop_sentence_inv (fuel iters n : nat) (st st' : loop_state) :
  sentence_inv st ->
  sampling_loop decoder_model_predict g fuel iters st = Some (Ok st', n) ->
  sentence_inv st' /\ stop_condition st' = true.
Proof.
  revert iters st. induction fuel as [|fuel IH]; intros iters st Hinv; simpl.
  - destruct (stop_condition st) eqn:Hs; [|discriminate].
    intros [= <- _]. done.
  - destruct (stop_condition st) eqn:Hs.
    + intros [= <- _]. done.
    + destruct (loop_body decoder_model_predict g st) as [st1|e] eqn:Hb;
        [|discriminate].
      apply IH. by apply (loop_body_sentence_inv st).
Qed.

(** The number of passes started equals the length of the sentence. *)
Lemma sampling_loop_iters (fuel iters n : nat) (st st' : loop_state) :
  iters = length (decoded_sentence st) ->
  sampling_loop decoder_model_predict g fuel iters st = Some (Ok st', n) ->
  n = length (decoded_sentence st').
Proof.
  revert iters st. induction fuel as [|fuel IH]; intros iters st Hit; simpl.
  - destruct (stop_condition st); [|discriminate]. by intros [= <- <-].
  - destruct (stop_condition st); [by intros [= <- <-]|].
    destruct (loop_body decoder_model_predict g st) as [st1|e] eqn:Hb;
      [|discriminate].
    apply IH. apply loop_body_length in Hb. lia.
Qed.

(** Enough fuel always leaves the loop, after at most [cap + 1] passes. *)
Lemma sampling_loop_terminates (fuel iters : nat) (st : loop_state) :
  sentence_inv st ->
  iters = length (decoded_sentence st) ->
  cap + 1 - iters <= fuel ->
  exists r n,
    sampling_loop decoder_model_predict g fuel iters st = Some (r, n)
    /\ n <= cap + 1.
Proof.
  revert iters st.
  induction fuel as [|fuel IH]; intros iters st Hinv Hit Hfuel; simpl.
  - unfold sentence_inv in Hinv.
    destruct (stop_condition st).
    + destruct Hinv as (init & c & Hd & _ & Hlen & _).
      rewrite Hd, length_app in Hit. simpl in Hit.
      eexists _, _. split; [done|lia].
    + lia.
  - destruct (stop_condition st) eqn:Hs.
    + unfold sentence_inv in Hinv. rewrite Hs in Hinv.
      destruct Hinv as (init & c & Hd & _ & Hlen & _).
      rewrite Hd, length_app in Hit. simpl in Hit.
      eexists _, _. split; [done|lia].
    + assert (iters <= cap) as Hle.
      { unfold sentence_inv in Hinv. rewrite Hs in Hinv. lia. }
      destruct (loop_body decoder_model_predict g st) as [st1|e] eqn:Hb.
      * apply IH.
        -- by apply (loop_body_sentence_inv st).
        -- apply loop_body_length in Hb. lia.
        -- lia.
      * eexists _, _. split; [done|lia].
Qed.

Lemma decode_init_sentence_inv
    (encoder_model_predict : tensor -> state_vector * state_vector)
    (input_seq : tensor) (st : loop_state) :
  decode_init encoder_model_predict g input_seq = Ok st ->
  sentence_inv st /\ decoded_sentence st = [].
Proof.
  unfold decode_init. intros Hi. inv_bind Hi. inv_bind Hi.
  injection Hi as <-. unfold sentence_inv. simpl.
  repeat split; [|lia]. apply not_elem_of_nil.
Qed.
End InferenceProperties.

(** C1. [decode_sequence] terminates for every input sequence.  A pass of
    the sampling loop appends exactly one character to the decoded sentence
    and sets the stop flag precisely when that character is the sentinel NL
    or the sentence has become longer than [max_decoder_seq_length]; so with
    any fuel of at least [max_decoder_seq_length + 1] the function returns
    (a sentence or an exception), after at most
    [max_decoder_seq_length + 1] passes. *)
Theorem decode_sequence_terminates
    (encoder_model_predict : tensor -> state_vector * state_vector)
    (decoder_model_predict :
       tensor -> state_vector * state_vector ->
       tensor * state_vector * state_vector)
    (g : tables) :
  (forall st st' : loop_state,
      loop_body decoder_model_predict g st = Ok st' ->
      length (decoded_sentence st') = S (length (decoded_sentence st))
      /\ (stop_condition st' = true <->
          stop_condition st = true
          \/ last (decoded_sentence st') = Some NL
          \/ max_decoder_seq_length g < length (decoded_sentence st')))
  /\ (forall (input_seq : tensor) (extra : nat),
        exists r n,
          decode_sequence encoder_model_predict decoder_model_predict g
            (max_decoder_seq_length g + 1 + extra) input_seq = Some (r, n)
          /\ n <= max_decoder_seq_length g + 1).
Proof.
  split.
  - intros st st' Hb. split.
    + by apply (loop_body_length decoder_model_predict g).
    + by apply (loop_body_stop decoder_model_predict g).
  - intros input_seq extra. unfold decode_sequence.
    destruct (decode_init encoder_model_predict g input_seq) as [st|e] eqn:Hi.
    + apply decode_init_sentence_inv in Hi as [Hinv Hnil].
      destruct (sampling_loop_terminates decoder_model_predict g
                  (max_decoder_seq_length g + 1 + extra) 0 st)
        as (r & n & -> & Hn); [done | by rewrite Hnil | lia |].
      destruct r as [st'|e]; eauto.
    + exists (Raise e), 0. split; [done|lia].
Qed.

(** C4. Every pass of the inference loop samples by argmax: the sampled
    token index is [np.argmax] of the last timestep of the decoder's
    prediction (the index of its first maximum), the character appended to
    the decoded sentence is [reverse_target_char_index] of that index, and
    the next target sequence is the single row that is 1.0 at that index
    and 0.0 at every other of its [num_decoder_tokens] positions. *)
Theorem loop_body_argmax_sampling
    (decoder_model_predict :
       tensor -> state_vector * state_vector ->
       tensor * state_vector * state_vector)
    (g : tables) (st st' : loop_state) :
  loop_body decoder_model_predict g st = Ok st' ->
  exists output_tokens h c scores sampled_token_index sampled_char row,
    decoder_model_predict (target_seq st) (states_value st)
      = (output_tokens, h, c)
    /\ item_0_last output_tokens = Ok scores
    /\ np_argmax scores = Ok sampled_token_index
    /\ first_maximum scores sampled_token_index
    /\ reverse_target_char_index g !! sampled_token_index = Some sampled_char
    /\ decoded_sentence st' = decoded_sentence st ++ [sampled_char]
    /\ states_value st' = (h, c)
    /\ target_seq st' = [[row]]
    /\ length row = num_decoder_tokens g
    /\ row !! sampled_token_index = Some 1%Q
    /\ (forall j, j < num_decoder_tokens g -> j <> sampled_token_index ->
          row !! j = Some 0%Q).
Proof.
  intros Hb.
  apply loop_body_Ok in Hb
    as (output_tokens & h & c & scores & k & ch & Hd & Hs & Hk & Hr & Hlt & ->).
  exists output_tokens, h, c, scores, k, ch, (one_hot (num_decoder_tokens g) k).
  simpl. repeat split; try done.
  - by apply np_argmax_first_maximum.
  - apply one_hot_length.
  - by apply one_hot_lookup_eq.
  - intros j Hj Hne. by apply one_hot_lookup_ne.
Qed.

(** C5. [decode_sequence] reads its input sequence only through
    [encoder_model.predict], which yields the two state vectors [h] and [c]
    of dimension [latent_dim]: on two input sequences with equal encoder
    states it returns the same decoded sentence. *)
Theorem decode_sequence_depends_on_states
    (encoder_model_predict : tensor -> state_vector * state_vector)
    (decoder_model_predict :
       tensor -> state_vector * state_vector ->
       tensor * state_vector * state_vector)
    (g : tables) (fuel : nat) (input_seq1 input_seq2 : tensor) :
  encoder_model_predict input_seq1 = encoder_model_predict input_seq2 ->
  decode_sequence encoder_model_predict decoder_model_predict g fuel input_seq1
  = decode_sequence encoder_model_predict decoder_model_predict g fuel input_seq2.
Proof.
  intros Hstates. unfold decode_sequence, decode_init.
  by rewrite Hstates.
Qed.

(** C8, as amended.  A sentence [decode_sequence] returns is non-empty and
    has at most [max_decoder_seq_length + 1] characters, one for each pass
    of the loop.  The sentinel NL can only be its last character, and it is
    part of the returned sentence when it was sampled; the loop stopped
    because the last character is the sentinel or because the sentence
    reached [max_decoder_seq_length + 1] characters (both can hold at once).
    A sentence longer than [max_decoder_seq_length] has no sentinel among
    its first [max_decoder_seq_length] characters. *)
Theorem decode_sequence_sentence_shape
    (encoder_model_predict : tensor -> state_vector * state_vector)
    (decoder_model_predict :
       tensor -> state_vector * state_vector ->
       tensor * state_vector * state_vector)
    (g : tables) (fuel : nat) (input_seq : tensor) (s : text) (n : nat) :
  decode_sequence encoder_model_predict decoder_model_predict g fuel input_seq
    = Some (Ok s, n) ->
  length s = n
  /\ 1 <= length s <= max_decoder_seq_length g + 1
  /\ (forall i, s !! i = Some NL -> S i = length s)
  /\ (last s = Some NL \/ length s = max_decoder_seq_length g + 1)
  /\ (max_decoder_seq_length g < length s ->
      forall i, i < max_decoder_seq_length g -> s !! i <> Some NL).
Proof.
  unfold decode_sequence. intros Hd.
  destruct (decode_init encoder_model_predict g input_seq) as [st|e] eqn:Hi;
    [|discriminate].
  apply decode_init_sentence_inv in Hi as [Hinv Hnil].
  destruct (sampling_loop decoder_model_predict g fuel 0 st)
    as [[[st'|e] m]|] eqn:Hl; [|discriminate..].
  injection Hd as <- <-.
  pose proof (sampling_loop_iters _ _ _ _ _ _ _ (eq_sym (f_equal length Hnil)) Hl)
    as Hm.
  apply sampling_loop_sentence_inv in Hl as [Hinv' Hstop]; [|done].
  unfold sentence_inv in Hinv'. rewrite Hstop in Hinv'.
  destruct Hinv' as (init & c & Hs & Hnl & Hlen & Hwhy).
  rewrite Hs in Hm |- *. clear Hs.
  assert (forall i, (init ++ [c]) !! i = Some NL -> S i = length (init ++ [c]))
    as Hlast.
  { intros i Hi. rewrite length_app. simpl.
    apply lookup_app_Some in Hi as [Hi|[Hge Hi]].
    - exfalso. apply Hnl. by apply list_elem_of_lookup_2 in Hi.
    - apply list_lookup_singleton_Some in Hi as [Hi _]. lia. }
  rewrite last_snoc.
  rewrite length_app in *. simpl in *.
  split; [lia|]. split; [lia|]. split; [done|]. split.
  - destruct Hwhy as [->|?]; [by left | right; lia].
  - intros Hlong i Hi Hc. apply Hlast in Hc. lia.
Qed.

(** The toy run that alternates c and d is cut at the length cap. *)
Example decode_sequence_cap :
  decode_sequence toy_encoder (toy_decoder next_cd) sample_tables 20 []
  = Some (Ok [99; 100; 99; 100; 99; 100]%N, 6).
Proof. vm_compute. reflexivity. Qed.

(** A pass of the loop on the toy decoder, from the start token. *)
Lemma loop_body_argmax_sampling_witness :
  loop_body (toy_decoder next_cd) sample_tables toy_start
    = Ok (LoopState [[one_hot 7 3]] (toy_encoder []) false [99%N])
  /\ exists output_tokens h c scores sampled_token_index sampled_char row,
      toy_decoder next_cd (target_seq toy_start) (states_value toy_start)
        = (output_tokens, h, c)
      /\ item_0_last output_tokens = Ok scores
      /\ np_argmax scores = Ok sampled_token_index
      /\ first_maximum scores sampled_token_index
      /\ reverse_target_char_index sample_tables !! sampled_token_index
          = Some sampled_char
      /\ [99%N] = decoded_sentence toy_start ++ [sampled_char]
      /\ toy_encoder [] = (h, c)
      /\ [[one_hot 7 3]] = [[row]]
      /\ length row = num_decoder_tokens sample_tables
      /\ row !! sampled_token_index = Some 1%Q
      /\ (forall j, j < num_decoder_tokens sample_tables ->
            j <> sampled_token_index -> row !! j = Some 0%Q).
Proof.
  split.
  - vm_compute. reflexivity.
  - apply (loop_body_argmax_sampling (toy_decoder next_cd) sample_tables
             toy_start
             (LoopState [[one_hot 7 3]] (toy_encoder []) false [99%N])).
    vm_compute. reflexivity.
Defined.

(** Two different input sequences that the toy encoder maps to the same
    states are decoded alike. *)
Lemma decode_sequence_depends_on_states_witness :
  toy_encoder [] = toy_encoder [[[1%Q]]]
  /\ decode_sequence toy_encoder (toy_decoder next_late_stop) sample_tables
       20 []
     = decode_sequence toy_encoder (toy_decoder next_late_stop) sample_tables
         20 [[[1%Q]]].
Proof.
  split.
  - reflexivity.
  - apply (decode_sequence_depends_on_states toy_encoder
             (toy_decoder next_late_stop) sample_tables 20 [] [[[1%Q]]]).
    reflexivity.
Defined.

(** C8, as stated, fails: with a cap of 5 characters the toy decoder samples
    c, d, e, f and a space, and then the sentinel in the sixth pass.  The
    returned sentence is longer than [max_decoder_seq_length] although the
    sentinel was sampled in that run. *)
Lemma decode_sequence_long_with_sentinel :
  decode_sequence toy_encoder (toy_decoder next_late_stop) sample_tables 20 []
    = Some (Ok [99; 100; 101; 102; 32; 10]%N, 6)
  /\ max_decoder_seq_length sample_tables
     < length [99; 100; 101; 102; 32; 10]%N
  /\ NL ∈ [99; 100; 101; 102; 32; 10]%N.
Proof.
  split; [vm_compute; reflexivity|].
  split; [vm_compute; lia|].
  unfold NL. set_solver.
Qed.

(** The same run, as an instance of the amended statement. *)
Lemma decode_sequence_sentence_shape_witness :
  decode_sequence toy_encoder (toy_decoder next_late_stop) sample_tables 20 []
    = Some (Ok [99; 100; 101; 102; 32; 10]%N, 6)
  /\ (length [99; 100; 101; 102; 32; 10]%N = 6
      /\ 1 <= length [99; 100; 101; 102; 32; 10]%N
           <= max_decoder_seq_length sample_tables + 1
      /\ (forall i, [99; 100; 101; 102; 32; 10]%N !! i = Some NL ->
            S i = length [99; 100; 101; 102; 32; 10]%N)
      /\ (last [99; 100; 101; 102; 32; 10]%N = Some NL
          \/ length [99; 100; 101; 102; 32; 10]%N
             = max_decoder_seq_length sample_tables + 1)
      /\ (max_decoder_seq_length sample_tables
            < length [99; 100; 101; 102; 32; 10]%N ->
          forall i, i < max_decoder_seq_length sample_tables ->
            [99; 100; 101; 102; 32; 10]%N !! i <> Some NL)).
Proof.
  split.
  - vm_compute. reflexivity.
  - apply (decode_sequence_sentence_shape toy_encoder
             (toy_decoder next_late_stop) sample_tables 20 []).
    vm_compute. reflexivity.
Defined.

(** ** The token tables *)

Lemma py_dict_from_lookup `{Countable K} {V} (pairs : list (K * V))
    (d : gmap K V) (k : K) (v : V) :
  NoDup pairs.*1 ->
  fold_left (fun d p => <[p.1 := p.2]> d) pairs d !! k = Some v <->
  (k, v) ∈ pairs \/ ((k ∉ pairs.*1) /\ d !! k = Some v).
Proof.
  revert d. induction pairs as [|[k' v'] pairs IH]; intros d Hnd; simpl.
  - split; [intros ?; right; split; [apply not_elem_of_nil | done]|].
    intros [Hin|[_ ?]]; [by apply elem_of_nil in Hin | done].
  - apply NoDup_cons in Hnd as [Hk' Hnd].
    rewrite IH by done. rewrite elem_of_cons, not_elem_of_cons.
    destruct (decide (k = k')) as [->|Hne].
    + rewrite lookup_insert_eq. split.
      * intros [Hin|[_ [= ->]]]; [|by left; left].
        exfalso. apply Hk'. by apply (list_elem_of_fmap_2 fst) in Hin.
      * intros [[[= ->]|Hin]|[[? _] _]]; [|by left|done].
        right. split; [done|done].
    + rewrite lookup_insert_ne by done. split.
      * intros [Hin|[? ?]]; [by left; right | by right].
      * intros [[[= ? ?]|Hin]|[[_ ?] ?]]; [done | by left | by right].
Qed.

Lemma py_dict_lookup `{Countable K} {V} (pairs : list (K * V)) (k : K) (v : V) :
  NoDup pairs.*1 ->
  py_dict pairs !! k = Some v <-> (k, v) ∈ pairs.
Proof.
  intros Hnd. unfold py_dict. rewrite py_dict_from_lookup by done.
  rewrite lookup_empty. split; [|by left].
  intros [?|[_ ?]]; [done | discriminate].
Qed.

Lemma elem_of_enumerate_from {A} (start : nat) (l : list A) (i : nat) (x : A) :
  (i, x) ∈ enumerate_from start l <->
  exists j, i = start + j /\ l !! j = Some x.
Proof.
  revert start. induction l as [|y l IH]; intros start; simpl.
  - split; [by intros ?%elem_of_nil | by intros (j & _ & ?)].
  - rewrite elem_of_cons, IH. split.
    + intros [Heq|(j & -> & Hj)].
      * injection Heq as -> ->. exists 0. split; [lia | done].
      * exists (S j). split; [lia | done].
    + intros ([|j] & -> & Hj); simpl in Hj.
      * left. injection Hj as ->. f_equal. lia.
      * right. exists j. split; [lia | done].
Qed.

Lemma enumerate_from_swap_keys {A} (start : nat) (l : list A) :
  ((fun p : nat * A => (p.2, p.1)) <$> enumerate_from start l).*1 = l.
Proof.
  revert start. induction l as [|y l IH]; intros start; simpl; [done|].
  by rewrite IH.
Qed.

(** The index table of a duplicate-free list maps each element to its
    position. *)
Lemma token_index_lookup (characters : text) (c : char) (i : nat) :
  NoDup characters ->
  token_index characters !! c = Some i <-> characters !! i = Some c.
Proof.
  intros Hnd. unfold token_index, enumerate.
  rewrite py_dict_lookup by (by rewrite enumerate_from_swap_keys).
  rewrite list_elem_of_fmap. split.
  - intros ([j y] & [= -> ->] & Hin). simpl.
    apply elem_of_enumerate_from in Hin as (j' & -> & Hj). done.
  - intros Hi. exists (i, c). split; [done|].
    apply elem_of_enumerate_from. exists i. done.
Qed.

(** The reverse table of an injective table inverts it. *)
Lemma reverse_index_lookup (index : gmap N nat) (i : nat) (c : char) :
  (forall c1 c2 k, index !! c1 = Some k -> index !! c2 = Some k -> c1 = c2) ->
  reverse_index index !! i = Some c <-> index !! c = Some i.
Proof.
  intros Hinj. unfold reverse_index.
  rewrite py_dict_lookup.
  - rewrite list_elem_of_fmap. split.
    + intros ([c' k] & [= -> ->] & Hin). by apply elem_of_map_to_list in Hin.
    + intros Hc. exists (c, i). split; [done|]. by apply elem_of_map_to_list.
  - rewrite <- list_fmap_compose.
    apply NoDup_fmap_2_strong; [|apply NoDup_map_to_list].
    intros [c1 k1] [c2 k2] H1 H2. simpl. intros <-.
    apply elem_of_map_to_list in H1, H2. f_equal. by apply (Hinj c1 c2 k1).
Qed.

Lemma reverse_token_index_lookup (characters : text) (i : nat) (c : char) :
  NoDup characters ->
  reverse_index (token_index characters) !! i = Some c <->
  characters !! i = Some c.
Proof.
  intros Hnd. rewrite reverse_index_lookup.
  - by apply token_index_lookup.
  - intros c1 c2 k H1 H2.
    apply token_index_lookup in H1, H2; [|done..]. congruence.
Qed.

Lemma sorted_NoDup (s : gset N) : NoDup (sorted s).
Proof.
  unfold sorted. rewrite merge_sort_Permutation. apply NoDup_elements.
Qed.

Lemma elem_of_sorted (s : gset N) (c : char) : c ∈ sorted s <-> c ∈ s.
Proof.
  unfold sorted. rewrite merge_sort_Permutation. apply elem_of_elements.
Qed.

(** ** The reading loop *)

Arguments add_characters : simpl never.

Lemma elem_of_add_characters (s : gset N) (txt : text) (c : char) :
  c ∈ add_characters s txt <-> c ∈ s \/ c ∈ txt.
Proof.
  unfold add_characters. revert s.
  induction txt as [|x txt IH]; intros s; simpl.
  - split; [by left | by intros [?|?%elem_of_nil]].
  - rewrite IH, elem_of_cons. case_decide as Hx.
    + intuition (subst; auto).
    + rewrite elem_of_union, elem_of_singleton. tauto.
Qed.

Lemma read_line_Ok (cp cp' : corpus) (line : text) :
  read_line cp line = Ok cp' ->
  exists input_text target_text attribution,
    split TAB line = [input_text; target_text; attribution]
    /\ cp' = Corpus (corpus_input_texts cp ++ [input_text])
               (corpus_target_texts cp ++ [[TAB] ++ target_text ++ [NL]])
               (add_characters (corpus_input_characters cp) input_text)
               (add_characters (corpus_target_characters cp)
                  ([TAB] ++ target_text ++ [NL])).
Proof.
  unfold read_line.
  destruct (split TAB line) as [|f1 [|f2 [|f3 [|f4 fs]]]]; try discriminate.
  intros [= <-]. eauto.
Qed.

Lemma read_line_corpus_ok (cp cp' : corpus) (line : text) :
  corpus_ok cp -> read_line cp line = Ok cp' -> corpus_ok cp'.
Proof.
  intros (Hlen & Hin & Htgt) Hr.
  apply read_line_Ok in Hr as (itxt & ttxt & attr & _ & ->).
  unfold corpus_ok. simpl. split; [|split].
  - rewrite !length_app. simpl. lia.
  - apply Forall_app. split.
    + eapply Forall_impl; [exact Hin|]. intros txt Htxt.
      eapply Forall_impl; [exact Htxt|]. intros c Hc.
      rewrite elem_of_add_characters. by left.
    + apply Forall_singleton. apply Forall_forall. intros c Hc.
      rewrite elem_of_add_characters. by right.
  - apply Forall_app. split.
    + eapply Forall_impl; [exact Htgt|]. intros txt [Htxt Hbody].
      split; [|done].
      eapply Forall_impl; [exact Htxt|]. intros c Hc.
      rewrite elem_of_add_characters. by left.
    + apply Forall_singleton. split; [|by exists ttxt].
      apply Forall_forall. intros c Hc.
      rewrite elem_of_add_characters. by right.
Qed.

Lemma read_lines_corpus_ok (lines : list text) (cp cp' : corpus) :
  corpus_ok cp -> for_each read_line lines cp = Ok cp' -> corpus_ok cp'.
Proof.
  revert cp. induction lines as [|line lines IH]; intros cp Hok; simpl.
  - by intros [= <-].
  - intros Hr. inv_bind Hr. eauto using read_line_corpus_ok.
Qed.

Lemma read_lines_length (lines : list text) (cp cp' : corpus) :
  for_each read_line lines cp = Ok cp' ->
  length (corpus_input_texts cp')
  = length (corpus_input_texts cp) + length lines.
Proof.
  revert cp. induction lines as [|line lines IH]; intros cp; simpl.
  - intros [= <-]. lia.
  - intros Hr. inv_bind Hr. apply IH in Hr. rewrite Hr.
    apply read_line_Ok in E as (?&?&?&_&->). simpl.
    rewrite length_app. simpl. lia.
Qed.

(** The reading loop succeeds on lines of exactly three fields. *)
Lemma read_lines_three_fields (lines : list text) (cp : corpus) :
  Forall (fun line => length (split TAB line) = 3) lines ->
  exists cp', for_each read_line lines cp = Ok cp'.
Proof.
  revert cp. induction lines as [|line lines IH]; intros cp Hl; simpl.
  - eauto.
  - apply Forall_cons in Hl as [Hline Hl].
    unfold read_line at 1.
    destruct (split TAB line) as [|f1 [|f2 [|f3 [|f4 fs]]]];
      try discriminate.
    simpl. apply IH, Hl.
Qed.

Lemma py_max_Ok (l : list nat) (m : nat) :
  py_max l = Ok m -> l <> [] /\ Forall (fun x => x <= m) l.
Proof.
  destruct l as [|x l]; simpl; [discriminate|]. intros [= <-].
  split; [done|].
  assert (forall l acc, acc <= fold_left Nat.max l acc
                        /\ Forall (fun y => y <= fold_left Nat.max l acc) l)
    as Hfold.
  { clear. induction l as [|y l IH]; intros acc; simpl; [by split|].
    destruct (IH (Nat.max acc y)) as [Hacc Hall]. split; [lia|].
    apply Forall_cons. split; [lia | done]. }
  destruct (Hfold l x). by apply Forall_cons.
Qed.

Lemma py_max_nonempty (l : list nat) :
  l <> [] -> exists m, py_max l = Ok m.
Proof. destruct l; [done|]. simpl. eauto. Qed.

(** What a successful run of the statements above the loops returns. *)
Lemma load_phase_Ok (data : text) (g : tables) (a : arrays) :
  load_phase data = Ok (g, a) ->
  tables_wf g /\ a = zero_arrays g
  /\ length (input_texts g) = length (loaded_lines data)
  /\ exists cp,
      for_each read_line (loaded_lines data) (Corpus [] [] ∅ ∅) = Ok cp
      /\ input_texts g = corpus_input_texts cp
      /\ target_texts g = corpus_target_texts cp.
Proof.
  unfold load_phase. intros Hl.
  inv_bind Hl. inv_bind Hl. inv_bind Hl. injection Hl as <- <-.
  rename x into cp, x0 into max_enc, x1 into max_dec.
  pose proof (read_lines_length _ _ _ E) as Hlen. simpl in Hlen.
  apply read_lines_corpus_ok in E as Hok;
    [|by repeat split; simpl; constructor].
  destruct Hok as (Hsame & Hin & Htgt).
  apply py_max_Ok in E0 as [_ Hmax_enc], E1 as [_ Hmax_dec].
  rewrite Forall_fmap in Hmax_enc, Hmax_dec.
  split; [|split; [done|split; [done|]]].
  - constructor; simpl; try done.
    + apply sorted_NoDup.
    + apply sorted_NoDup.
    + apply Forall_forall. intros txt Htxt. split.
      * by apply (proj1 (Forall_forall _ _) Hmax_enc).
      * eapply Forall_impl; [by apply (proj1 (Forall_forall _ _) Hin)|].
        intros c Hc. by apply elem_of_sorted.
    + apply Forall_forall. intros txt Htxt.
      destruct (proj1 (Forall_forall _ _) Htgt txt Htxt) as [Hchars Hbody].
      split; [by apply (proj1 (Forall_forall _ _) Hmax_dec)|].
      split; [|done].
      eapply Forall_impl; [exact Hchars|].
      intros c Hc. by apply elem_of_sorted.
  - exists cp. done.
Qed.

(** ** The filling loops *)

Lemma setitem3_middle (a : tensor) (i : nat) (pre : matrix) (row : vector)
    (rest : matrix) (k : nat) (v : Q) :
  a !! i = Some (pre ++ row :: rest) -> k < length row ->
  setitem3 a i (length pre) k v
  = Ok (<[i := pre ++ <[k := v]> row :: rest]> a).
Proof.
  intros Ha Hk. unfold setitem3.
  rewrite Ha, list_lookup_middle by done.
  rewrite decide_True by done. do 2 f_equal.
  rewrite insert_app_r_alt by done. by rewrite Nat.sub_diag.
Qed.

Lemma setslice3_from (a : tensor) (i : nat) (pre rest : matrix) (n k : nat)
    (v : Q) :
  a !! i = Some (pre ++ rest) ->
  Forall (fun row => length row = n) (pre ++ rest) -> k < n ->
  setslice3 a i (length pre) k v
  = Ok (<[i := pre ++ ((fun row => <[k := v]> row) <$> rest)]> a).
Proof.
  intros Ha Hrows Hk. unfold setslice3. rewrite Ha.
  rewrite decide_True.
  - by rewrite take_app_length, drop_app_length.
  - eapply Forall_impl; [exact Hrows|]. simpl. intros row ->. done.
Qed.

Lemma encode_Some (index : gmap N nat) (n : nat) (c : char) (k : nat) :
  index !! c = Some k -> encode index n c = one_hot n k.
Proof. intros Hk. unfold encode. by rewrite Hk. Qed.

Lemma fill_state_eta (st : fill_state) :
  FillState (var_t st)
    (Arrays (encoder_input_data (fill_arrays st))
            (decoder_input_data (fill_arrays st))
            (decoder_target_data (fill_arrays st))) = st.
Proof. by destruct st as [t [? ? ?]]. Qed.

Section FillProperties.
Variable g : tables.
Hypothesis Hwf : tables_wf g.

Abbreviation n_enc := (num_encoder_tokens g).
Abbreviation n_dec := (num_decoder_tokens g).
Abbreviation zeros_enc := (replicate (num_encoder_tokens g) 0%Q).
Abbreviation zeros_dec := (replicate (num_decoder_tokens g) 0%Q).
Abbreviation encode_in := (encode (input_token_index g) (num_encoder_tokens g)).
Abbreviation encode_tgt :=
  (encode (target_token_index g) (num_decoder_tokens g)).

Lemma input_token_index_lookup (c : char) :
  c ∈ input_characters g ->
  exists k, input_token_index g !! c = Some k /\ k < n_enc.
Proof.
  intros Hc. apply list_elem_of_lookup_1 in Hc as [k Hk]. exists k.
  rewrite (wf_input_token_index g Hwf), (wf_num_encoder_tokens g Hwf).
  split; [|by apply lookup_lt_Some in Hk].
  apply token_index_lookup; [apply (wf_input_NoDup g Hwf) | done].
Qed.

Lemma target_token_index_lookup (c : char) :
  c ∈ target_characters g ->
  exists k, target_token_index g !! c = Some k /\ k < n_dec.
Proof.
  intros Hc. apply list_elem_of_lookup_1 in Hc as [k Hk]. exists k.
  rewrite (wf_target_token_index g Hwf), (wf_num_decoder_tokens g Hwf).
  split; [|by apply lookup_lt_Some in Hk].
  apply token_index_lookup; [apply (wf_target_NoDup g Hwf) | done].
Qed.

(** The loop over the characters of an input text, started at timestep
    [length pre] with the rows [pre] already encoded. *)
Lemma fill_input_chars (i : nat) (txt : text) (pre : matrix) (r : nat)
    (st : fill_state) :
  Forall (fun c => c ∈ input_characters g) txt ->
  encoder_input_data (fill_arrays st) !! i
    = Some (pre ++ replicate (length txt + r) zeros_enc) ->
  for_each (fill_input_char g i) (enumerate_from (length pre) txt) st
  = Ok (FillState
          (match txt with
           | [] => var_t st
           | _ => Some (length pre + length txt - 1)
           end)
          (Arrays
             (<[i := (pre ++ (encode_in <$> txt)) ++ replicate r zeros_enc]>
                (encoder_input_data (fill_arrays st)))
             (decoder_input_data (fill_arrays st))
             (decoder_target_data (fill_arrays st)))).
Proof.
  revert pre st. induction txt as [|c txt IH]; intros pre st Hchars Hrow.
  - simpl in *. rewrite app_nil_r, list_insert_id by done.
    by rewrite fill_state_eta.
  - apply Forall_cons in Hchars as [Hc Hchars].
    destruct (input_token_index_lookup c Hc) as (k & Hk & Hlt).
    assert (i < length (encoder_input_data (fill_arrays st))) as Hi
      by (by apply lookup_lt_Some in Hrow).
    cbn [enumerate_from for_each]. unfold fill_input_char at 1.
    unfold getitem. rewrite Hk. cbn [bind].
    change (replicate (length (c :: txt) + r) zeros_enc)
      with (zeros_enc :: replicate (length txt + r) zeros_enc) in Hrow.
    rewrite (setitem3_middle _ _ _ _ _ _ _ Hrow)
      by (by rewrite length_replicate).
    cbn [bind].
    specialize (IH (pre ++ [one_hot n_enc k])).
    rewrite length_app, Nat.add_1_r in IH.
    rewrite IH; clear IH; [|done|].
    + cbn [var_t fill_arrays encoder_input_data decoder_input_data
             decoder_target_data].
      rewrite list_insert_insert_eq. do 2 f_equal.
      * destruct txt; f_equal; simpl; lia.
      * do 2 f_equal. rewrite fmap_cons, (encode_Some _ _ _ _ Hk).
        by rewrite <- !app_assoc.
    + cbn [fill_arrays encoder_input_data].
      rewrite list_lookup_insert_eq by done.
      by rewrite <- app_assoc.
Qed.

(** The loop over the characters of a target text from its second
    character on: timestep [t] of the decoder input and timestep [t - 1]
    of the decoder target receive the same row. *)
Lemma fill_target_chars (i : nat) (txt : text) (pre_in pre_tgt : matrix)
    (r r' : nat) (st : fill_state) :
  length pre_in = S (length pre_tgt) ->
  Forall (fun c => c ∈ target_characters g) txt ->
  decoder_input_data (fill_arrays st) !! i
    = Some (pre_in ++ replicate (length txt + r) zeros_dec) ->
  decoder_target_data (fill_arrays st) !! i
    = Some (pre_tgt ++ replicate (length txt + r') zeros_dec) ->
  for_each (fill_target_char g i) (enumerate_from (length pre_in) txt) st
  = Ok (FillState
          (match txt with
           | [] => var_t st
           | _ => Some (length pre_in + length txt - 1)
           end)
          (Arrays
             (encoder_input_data (fill_arrays st))
             (<[i := (pre_in ++ (encode_tgt <$> txt))
                     ++ replicate r zeros_dec]>
                (decoder_input_data (fill_arrays st)))
             (<[i := (pre_tgt ++ (encode_tgt <$> txt))
                     ++ replicate r' zeros_dec]>
                (decoder_target_data (fill_arrays st))))).
Proof.
  revert pre_in pre_tgt st.
  induction txt as [|c txt IH]; intros pre_in pre_tgt st Hpre Hchars Hin Htgt.
  - simpl in *. rewrite !app_nil_r, !list_insert_id by done.
    by rewrite fill_state_eta.
  - apply Forall_cons in Hchars as [Hc Hchars].
    destruct (target_token_index_lookup c Hc) as (k & Hk & Hlt).
    assert (i < length (decoder_input_data (fill_arrays st))) as Hi
      by (by apply lookup_lt_Some in Hin).
    assert (i < length (decoder_target_data (fill_arrays st))) as Hi'
      by (by apply lookup_lt_Some in Htgt).
    cbn [enumerate_from for_each]. unfold fill_target_char at 1.
    unfold getitem. rewrite Hk. cbn [bind].
    change (replicate (length (c :: txt) + r) zeros_dec)
      with (zeros_dec :: replicate (length txt + r) zeros_dec) in Hin.
    change (replicate (length (c :: txt) + r') zeros_dec)
      with (zeros_dec :: replicate (length txt + r') zeros_dec) in Htgt.
    rewrite (setitem3_middle _ _ _ _ _ _ _ Hin)
      by (by rewrite length_replicate).
    cbn [bind]. rewrite decide_True by lia. cbn [bind].
    replace (length pre_in - 1) with (length pre_tgt) by lia.
    rewrite (setitem3_middle _ _ _ _ _ _ _ Htgt)
      by (by rewrite length_replicate).
    cbn [bind].
    specialize (IH (pre_in ++ [one_hot n_dec k])
                   (pre_tgt ++ [one_hot n_dec k])).
    rewrite length_app, Nat.add_1_r in IH.
    rewrite IH; clear IH.
    + cbn [var_t fill_arrays encoder_input_data decoder_input_data
             decoder_target_data].
      rewrite !list_insert_insert_eq. do 2 f_equal.
      * destruct txt; f_equal; simpl; lia.
      * rewrite !fmap_cons, (encode_Some _ _ _ _ Hk).
        by rewrite <- !app_assoc.
    + rewrite length_app. simpl. lia.
    + done.
    + cbn [fill_arrays decoder_input_data].
      rewrite list_lookup_insert_eq by done.
      by rewrite <- app_assoc.
    + cbn [fill_arrays decoder_target_data].
      rewrite list_lookup_insert_eq by done.
      by rewrite <- app_assoc.
Qed.

(** The first pass of the loop over a target text only writes the decoder
    input. *)
Lemma fill_target_first (i : nat) (c : char) (rest : matrix)
    (st : fill_state) :
  c ∈ target_characters g ->
  decoder_input_data (fill_arrays st) !! i = Some (zeros_dec :: rest) ->
  fill_target_char g i st (0, c)
  = Ok (FillState (Some 0)
          (Arrays (encoder_input_data (fill_arrays st))
                  (<[i := encode_tgt c :: rest]>
                     (decoder_input_data (fill_arrays st)))
                  (decoder_target_data (fill_arrays st)))).
Proof.
  intros Hc Hin.
  destruct (target_token_index_lookup c Hc) as (k & Hk & Hlt).
  unfold fill_target_char, getitem. rewrite Hk. cbn [bind].
  assert (k < length zeros_dec) as Hlen by (by rewrite length_replicate).
  pose proof (setitem3_middle _ i [] zeros_dec rest k 1%Q Hin Hlen) as Hset.
  cbn [length app] in Hset. rewrite Hset.
  cbn [bind]. rewrite decide_False by lia. cbn [bind].
  by rewrite (encode_Some _ _ _ _ Hk).
Qed.

Lemma encode_in_length (c : char) : length (encode_in c) = n_enc.
Proof. apply one_hot_length. Qed.

Lemma encode_tgt_length (c : char) : length (encode_tgt c) = n_dec.
Proof. apply one_hot_length. Qed.

(** Padding: the rows from a given timestep on receive the row of the
    space character. *)
Lemma pad_rows (index : gmap N nat) (n r k : nat) :
  index !! SPACE = Some k ->
  (fun row : vector => <[k := 1%Q]> row) <$> replicate r (replicate n 0%Q)
  = replicate r (encode index n SPACE).
Proof.
  intros Hk. by rewrite (encode_Some _ _ _ _ Hk), fmap_replicate.
Qed.

Abbreviation zeros_enc_sample :=
  (replicate (max_encoder_seq_length g) (replicate (num_encoder_tokens g) 0%Q)).
Abbreviation zeros_dec_sample :=
  (replicate (max_decoder_seq_length g) (replicate (num_decoder_tokens g) 0%Q)).

(** The first half of a pass of the outer loop, on a sample whose rows
    are still zero. *)
Lemma fill_sample_input_Ok (i : nat) (input_text : text) (st : fill_state) :
  input_text <> [] ->
  length input_text <= max_encoder_seq_length g ->
  Forall (fun c => c ∈ input_characters g) input_text ->
  SPACE ∈ input_characters g ->
  encoder_input_data (fill_arrays st) !! i = Some zeros_enc_sample ->
  fill_sample_input g i input_text st
  = Ok (FillState (Some (length input_text - 1))
          (Arrays
             (<[i := encode_text (input_token_index g) n_enc
                       (max_encoder_seq_length g) input_text]>
                (encoder_input_data (fill_arrays st)))
             (decoder_input_data (fill_arrays st))
             (decoder_target_data (fill_arrays st)))).
Proof.
  intros Hin_ne Hin_len Hin_chars Hsp_in Henc.
  destruct (input_token_index_lookup SPACE Hsp_in) as (ks & Hks & Hks_lt).
  assert (i < length (encoder_input_data (fill_arrays st))) as Hi_enc
    by (by apply lookup_lt_Some in Henc).
  unfold fill_sample_input.
  set (r := max_encoder_seq_length g - length input_text).
  assert (for_each (fill_input_char g i) (enumerate input_text) st
          = Ok (FillState (Some (length input_text - 1))
                  (Arrays
                     (<[i := (encode_in <$> input_text)
                             ++ replicate r zeros_enc]>
                        (encoder_input_data (fill_arrays st)))
                     (decoder_input_data (fill_arrays st))
                     (decoder_target_data (fill_arrays st))))) as ->.
  { pose proof (fill_input_chars i input_text [] r st Hin_chars) as Hloop.
    cbn [length app] in Hloop. unfold enumerate. rewrite Hloop.
    - by destruct input_text.
    - rewrite Henc. do 2 f_equal. unfold r. lia. }
  cbn [bind var_t read_var fill_arrays encoder_input_data
         decoder_input_data decoder_target_data].
  unfold getitem at 1. rewrite Hks. cbn [bind].
  replace (length input_text - 1 + 1)
    with (length (encode_in <$> input_text))
    by (rewrite length_fmap; destruct input_text; [done | simpl; lia]).
  rewrite (setslice3_from _ i (encode_in <$> input_text)
             (replicate r zeros_enc) n_enc);
    [|by rewrite list_lookup_insert_eq| |done].
  2:{ apply Forall_app. split.
      - apply Forall_fmap, Forall_forall. intros c _. apply encode_in_length.
      - apply Forall_replicate. apply length_replicate. }
  cbn [bind]. by rewrite list_insert_insert_eq, (pad_rows _ _ _ _ Hks).
Qed.

(** The first half leaves the decoder arrays alone. *)
Lemma fill_input_chars_frame (i : nat) (l : list (nat * char))
    (st st' : fill_state) :
  for_each (fill_input_char g i) l st = Ok st' ->
  decoder_input_data (fill_arrays st')
    = decoder_input_data (fill_arrays st)
  /\ decoder_target_data (fill_arrays st')
     = decoder_target_data (fill_arrays st).
Proof.
  revert st. induction l as [|[t c] l IH]; intros st Hl; simpl in Hl.
  - by injection Hl as <-.
  - inv_bind Hl. apply IH in Hl as [-> ->].
    unfold fill_input_char in E. inv_bind E. inv_bind E.
    by injection E as <-.
Qed.

Lemma fill_sample_input_frame (i : nat) (input_text : text)
    (st st' : fill_state) :
  fill_sample_input g i input_text st = Ok st' ->
  decoder_input_data (fill_arrays st')
    = decoder_input_data (fill_arrays st)
  /\ decoder_target_data (fill_arrays st')
     = decoder_target_data (fill_arrays st).
Proof.
  unfold fill_sample_input. intros Hs.
  inv_bind Hs. inv_bind Hs. inv_bind Hs. inv_bind Hs.
  injection Hs as <-. by apply fill_input_chars_frame in E.
Qed.

(** The second half, on a sample whose rows are still zero: it raises
    [KeyError] when the space character is not a target character, and
    otherwise leaves the rows of the sample in closed form. *)
Lemma fill_sample_target_eq (i : nat) (target_text : text)
    (st : fill_state) :
  target_text <> [] ->
  length target_text <= max_decoder_seq_length g ->
  Forall (fun c => c ∈ target_characters g) target_text ->
  decoder_input_data (fill_arrays st) !! i = Some zeros_dec_sample ->
  decoder_target_data (fill_arrays st) !! i = Some zeros_dec_sample ->
  fill_sample_target g i target_text st
  = match target_token_index g !! SPACE with
    | None => Raise KeyError
    | Some _ =>
        Ok (FillState (Some (length target_text - 1))
              (Arrays
                 (encoder_input_data (fill_arrays st))
                 (<[i := encode_text (target_token_index g) n_dec
                           (max_decoder_seq_length g) target_text]>
                    (decoder_input_data (fill_arrays st)))
                 (<[i := encode_text (target_token_index g) n_dec
                           (max_decoder_seq_length g) (tail target_text)]>
                    (decoder_target_data (fill_arrays st)))))
    end.
Proof.
  intros Htgt_ne Htgt_len Htgt_chars Hdec Htgt.
  assert (i < length (decoder_input_data (fill_arrays st))) as Hi_dec
    by (by apply lookup_lt_Some in Hdec).
  assert (i < length (decoder_target_data (fill_arrays st))) as Hi_tgt
    by (by apply lookup_lt_Some in Htgt).
  unfold fill_sample_target.
  destruct target_text as [|c0 rest]; [done|]. clear Htgt_ne.
  apply Forall_cons in Htgt_chars as [Hc0 Hrest].
  cbn [length] in Htgt_len.
  set (r' := max_decoder_seq_length g - S (length rest)).
  unfold enumerate. cbn [enumerate_from for_each].
  rewrite (fill_target_first i c0
             (replicate (length rest + r') zeros_dec)); [|done|].
  2:{ rewrite Hdec.
      replace (max_decoder_seq_length g) with (S (length rest + r'))
        by (unfold r'; lia). done. }
  cbn [bind fill_arrays encoder_input_data decoder_input_data
         decoder_target_data].
  pose proof (fill_target_chars i rest [encode_tgt c0] [] r' (S r')) as Hloop.
  cbn [length app] in Hloop. rewrite Hloop; clear Hloop; [|done|done| |].
  2:{ cbn [fill_arrays decoder_input_data].
      by rewrite list_lookup_insert_eq. }
  2:{ cbn [fill_arrays decoder_target_data]. rewrite Htgt.
      replace (max_decoder_seq_length g) with (length rest + S r')
        by (unfold r'; lia). done. }
  cbn [bind var_t read_var fill_arrays encoder_input_data
         decoder_input_data decoder_target_data].
  assert (match rest with
          | [] => Some 0
          | _ :: _ => Some (1 + length rest - 1)
          end = Some (length rest)) as ->.
  { by destruct rest. }
  cbn [bind read_var]. unfold getitem.
  destruct (target_token_index g !! SPACE) as [kt|] eqn:Hkt; [|done].
  assert (kt < n_dec) as Hkt_lt.
  { rewrite (wf_target_token_index g Hwf) in Hkt.
    apply token_index_lookup in Hkt; [|apply (wf_target_NoDup g Hwf)].
    rewrite (wf_num_decoder_tokens g Hwf). by apply lookup_lt_Some in Hkt. }
  cbn [bind].
  rewrite !list_insert_insert_eq.
  replace (length rest + 1)
    with (length ([encode_tgt c0] ++ (encode_tgt <$> rest)))
    by (rewrite length_app, length_fmap; simpl; lia).
  rewrite (setslice3_from _ i ([encode_tgt c0] ++ (encode_tgt <$> rest))
             (replicate r' zeros_dec) n_dec);
    [|by rewrite list_lookup_insert_eq| |done].
  2:{ apply Forall_app. split; [apply Forall_app; split|].
      - apply Forall_singleton, encode_tgt_length.
      - apply Forall_fmap, Forall_forall. intros c _. apply encode_tgt_length.
      - apply Forall_replicate. apply length_replicate. }
  cbn [bind]. rewrite list_insert_insert_eq, (pad_rows _ _ _ _ Hkt).
  replace (length rest)
    with (length (encode_tgt <$> rest)) at 1
    by (by rewrite length_fmap).
  rewrite (setslice3_from _ i (encode_tgt <$> rest)
             (replicate (S r') zeros_dec) n_dec);
    [|by rewrite list_lookup_insert_eq| |done].
  2:{ apply Forall_app. split.
      - apply Forall_fmap, Forall_forall. intros c _. apply encode_tgt_length.
      - apply Forall_replicate. apply length_replicate. }
  cbn [bind]. rewrite list_insert_insert_eq, (pad_rows _ _ _ _ Hkt).
  do 2 f_equal; [f_equal; simpl; lia|].
  unfold encode_text. cbn [tail length app]. rewrite fmap_cons.
  f_equal; do 2 f_equal; unfold r'; try done; try lia.
  f_equal. lia.
Qed.

(** One pass of the outer loop on a sample whose rows are still zero. *)
Lemma fill_sample_Ok (i : nat) (input_text target_text : text)
    (st : fill_state) :
  input_text <> [] -> target_text <> [] ->
  length input_text <= max_encoder_seq_length g ->
  length target_text <= max_decoder_seq_length g ->
  Forall (fun c => c ∈ input_characters g) input_text ->
  Forall (fun c => c ∈ target_characters g) target_text ->
  SPACE ∈ input_characters g -> SPACE ∈ target_characters g ->
  encoder_input_data (fill_arrays st) !! i = Some zeros_enc_sample ->
  decoder_input_data (fill_arrays st) !! i = Some zeros_dec_sample ->
  decoder_target_data (fill_arrays st) !! i = Some zeros_dec_sample ->
  fill_sample g st (i, (input_text, target_text))
  = Ok (FillState (Some (length target_text - 1))
          (Arrays
             (<[i := encode_text (input_token_index g) n_enc
                       (max_encoder_seq_length g) input_text]>
                (encoder_input_data (fill_arrays st)))
             (<[i := encode_text (target_token_index g) n_dec
                       (max_decoder_seq_length g) target_text]>
                (decoder_input_data (fill_arrays st)))
             (<[i := encode_text (target_token_index g) n_dec
                       (max_decoder_seq_length g) (tail target_text)]>
                (decoder_target_data (fill_arrays st))))).
Proof.
  intros Hin_ne Htgt_ne Hin_len Htgt_len Hin_chars Htgt_chars Hsp_in Hsp_tgt
         Henc Hdec Htgt.
  destruct (target_token_index_lookup SPACE Hsp_tgt) as (kt & Hkt & _).
  unfold fill_sample.
  rewrite fill_sample_input_Ok by done. cbn [bind].
  rewrite fill_sample_target_eq by done. by rewrite Hkt.
Qed.

(** The outer loop, started at sample [length enc_done] with the samples
    before it already filled. *)
Lemma fill_samples (inputs targets : list text)
    (enc_done dec_done tgt_done : list matrix) (st : fill_state) :
  length inputs = length targets ->
  Forall (fun txt => txt <> [] /\ length txt <= max_encoder_seq_length g
                     /\ Forall (fun c => c ∈ input_characters g) txt)
    inputs ->
  Forall (fun txt => txt <> [] /\ length txt <= max_decoder_seq_length g
                     /\ Forall (fun c => c ∈ target_characters g) txt)
    targets ->
  SPACE ∈ input_characters g -> SPACE ∈ target_characters g ->
  length dec_done = length enc_done ->
  length tgt_done = length enc_done ->
  encoder_input_data (fill_arrays st)
    = enc_done ++ replicate (length inputs) zeros_enc_sample ->
  decoder_input_data (fill_arrays st)
    = dec_done ++ replicate (length inputs) zeros_dec_sample ->
  decoder_target_data (fill_arrays st)
    = tgt_done ++ replicate (length inputs) zeros_dec_sample ->
  exists t,
    for_each (fill_sample g)
      (enumerate_from (length enc_done) (zip inputs targets)) st
    = Ok (FillState t
            (Arrays
               (enc_done
                ++ (encode_text (input_token_index g) n_enc
                      (max_encoder_seq_length g) <$> inputs))
               (dec_done
                ++ (encode_text (target_token_index g) n_dec
                      (max_decoder_seq_length g) <$> targets))
               (tgt_done
                ++ ((fun txt =>
                       encode_text (target_token_index g) n_dec
                         (max_decoder_seq_length g) (tail txt))
                      <$> targets)))).
Proof.
  revert targets enc_done dec_done tgt_done st.
  induction inputs as [|input_text inputs IH];
    intros [|target_text targets] enc_done dec_done tgt_done st
           Hlen Hin Htgt Hsp_in Hsp_tgt Hdec_len Htgt_len Henc Hdec Htg;
    try discriminate.
  - exists (var_t st). simpl in *. rewrite !app_nil_r in *.
    rewrite <- Henc, <- Hdec, <- Htg. by rewrite fill_state_eta.
  - apply Forall_cons in Hin as [(Hin_ne & Hin_len & Hin_chars) Hin].
    apply Forall_cons in Htgt as [(Htgt_ne & Htgt_le & Htgt_chars) Htgt].
    cbn [zip zip_with enumerate_from for_each].
    cbn [length replicate] in Henc, Hdec, Htg.
    rewrite (fill_sample_Ok (length enc_done) input_text target_text st);
      try done.
    2:{ rewrite Henc. by apply list_lookup_middle. }
    2:{ rewrite Hdec. by apply list_lookup_middle. }
    2:{ rewrite Htg. by apply list_lookup_middle. }
    cbn [bind].
    set (st1 := FillState _ _).
    destruct (IH targets
                (enc_done ++ [encode_text (input_token_index g) n_enc
                                (max_encoder_seq_length g) input_text])
                (dec_done ++ [encode_text (target_token_index g) n_dec
                                (max_decoder_seq_length g) target_text])
                (tgt_done ++ [encode_text (target_token_index g) n_dec
                                (max_decoder_seq_length g)
                                (tail target_text)])
                st1) as [t Ht]; try done.
    + by injection Hlen.
    + rewrite !length_app. simpl. lia.
    + rewrite !length_app. simpl. lia.
    + unfold st1. cbn [fill_arrays encoder_input_data]. rewrite Henc.
      rewrite insert_app_r_alt, Nat.sub_diag by done.
      by rewrite <- app_assoc.
    + unfold st1. cbn [fill_arrays decoder_input_data]. rewrite Hdec.
      rewrite insert_app_r_alt, Hdec_len, Nat.sub_diag by lia.
      by rewrite <- app_assoc.
    + unfold st1. cbn [fill_arrays decoder_target_data]. rewrite Htg.
      rewrite insert_app_r_alt, Htgt_len, Nat.sub_diag by lia.
      by rewrite <- app_assoc.
    + exists t. rewrite length_app, Nat.add_1_r in Ht. rewrite Ht.
      rewrite !fmap_cons. by rewrite <- !app_assoc.
Qed.

(** The filling loops complete and leave the arrays in closed form. *)
Lemma fill_phase_filled :
  Forall (fun txt => txt <> []) (input_texts g) ->
  SPACE ∈ input_characters g -> SPACE ∈ target_characters g ->
  fill_phase g (zero_arrays g) = Ok (filled_arrays g).
Proof.
  intros Hne Hsp_in Hsp_tgt. unfold fill_phase, enumerate.
  destruct (fill_samples (input_texts g) (target_texts g) [] [] []
              (FillState None (zero_arrays g))) as [t Ht]; try done.
  - apply (wf_samples g Hwf).
  - apply Forall_forall. intros txt Htxt.
    split; [by apply (proj1 (Forall_forall _ _) Hne)|].
    by apply (proj1 (Forall_forall _ _) (wf_input_texts g Hwf)).
  - eapply Forall_impl; [apply (wf_target_texts g Hwf)|].
    intros txt (Hl & Hc & body & ->). done.
  - cbn [length] in Ht. rewrite Ht. done.
Qed.

(** Whenever the outer loop completes, the decoder arrays are in closed
    form, whatever the input texts are. *)
Lemma fill_samples_decoder (inputs targets : list text)
    (dec_done tgt_done : list matrix) (i : nat) (st st' : fill_state) :
  length inputs = length targets ->
  Forall (fun txt => txt <> [] /\ length txt <= max_decoder_seq_length g
                     /\ Forall (fun c => c ∈ target_characters g) txt)
    targets ->
  length dec_done = i -> length tgt_done = i ->
  decoder_input_data (fill_arrays st)
    = dec_done ++ replicate (length inputs) zeros_dec_sample ->
  decoder_target_data (fill_arrays st)
    = tgt_done ++ replicate (length inputs) zeros_dec_sample ->
  for_each (fill_sample g) (enumerate_from i (zip inputs targets)) st
    = Ok st' ->
  decoder_input_data (fill_arrays st')
    = dec_done ++ (encode_text (target_token_index g) n_dec
                     (max_decoder_seq_length g) <$> targets)
  /\ decoder_target_data (fill_arrays st')
     = tgt_done ++ ((fun txt =>
                       encode_text (target_token_index g) n_dec
                         (max_decoder_seq_length g) (tail txt))
                      <$> targets).
Proof.
  revert targets dec_done tgt_done i st.
  induction inputs as [|input_text inputs IH];
    intros [|target_text targets] dec_done tgt_done i st
           Hlen Htgt Hdec_len Htgt_len Hdec Htg Hloop;
    try discriminate.
  - simpl in *. injection Hloop as <-.
    rewrite !app_nil_r in *. done.
  - apply Forall_cons in Htgt as [(Htgt_ne & Htgt_le & Htgt_chars) Htgt].
    cbn [zip zip_with enumerate_from for_each] in Hloop.
    cbn [length replicate] in Hdec, Htg.
    inv_bind Hloop. unfold fill_sample in E. inv_bind E.
    apply fill_sample_input_frame in E0 as [Hfd Hft].
    rewrite fill_sample_target_eq in E; try done.
    2:{ rewrite Hfd, Hdec, <- Hdec_len. by apply list_lookup_middle. }
    2:{ rewrite Hft, Htg, <- Htgt_len. by apply list_lookup_middle. }
    destruct (target_token_index g !! SPACE); [|discriminate].
    injection E as <-.
    apply (IH targets
             (dec_done ++ [encode_text (target_token_index g) n_dec
                             (max_decoder_seq_length g) target_text])
             (tgt_done ++ [encode_text (target_token_index g) n_dec
                             (max_decoder_seq_length g)
                             (tail target_text)])) in Hloop.
    + rewrite !fmap_cons. by rewrite <- !app_assoc in Hloop.
    + by injection Hlen.
    + done.
    + rewrite length_app. simpl. lia.
    + rewrite length_app. simpl. lia.
    + cbn [fill_arrays decoder_input_data]. rewrite Hfd, Hdec.
      rewrite insert_app_r_alt, Hdec_len, Nat.sub_diag by lia.
      by rewrite <- app_assoc.
    + cbn [fill_arrays decoder_target_data]. rewrite Hft, Htg.
      rewrite insert_app_r_alt, Htgt_len, Nat.sub_diag by lia.
      by rewrite <- app_assoc.
Qed.

Lemma fill_phase_decoder (a' : arrays) :
  fill_phase g (zero_arrays g) = Ok a' ->
  decoder_input_data a' = decoder_input_data (filled_arrays g)
  /\ decoder_target_data a' = decoder_target_data (filled_arrays g).
Proof.
  unfold fill_phase, enumerate. intros Hf. inv_bind Hf. injection Hf as <-.
  apply (fill_samples_decoder (input_texts g) (target_texts g) [] [] 0)
    in E; try done.
  - apply (wf_samples g Hwf).
  - eapply Forall_impl; [apply (wf_target_texts g Hwf)|].
    intros txt (Hl & Hc & body & ->). done.
Qed.

(** Reading a row of an encoded text: the character at that timestep,
    the space character from the end of the text on. *)
Lemma encode_text_lookup (index : gmap N nat) (n rows : nat) (txt : text)
    (t : nat) :
  length txt <= rows -> t < rows ->
  encode_text index n rows txt !! t
  = Some (encode index n (default SPACE (txt !! t))).
Proof.
  intros Hlen Ht. unfold encode_text.
  destruct (decide (t < length txt)) as [Hlt|Hge].
  - rewrite lookup_app_l by (by rewrite length_fmap).
    rewrite list_lookup_fmap.
    destruct (lookup_lt_is_Some_2 txt t Hlt) as [c Hc]. by rewrite Hc.
  - rewrite lookup_app_r by (rewrite length_fmap; lia).
    rewrite lookup_replicate_2 by (rewrite length_fmap; lia).
    by rewrite lookup_ge_None_2 by lia.
Qed.

Lemma one_hot_one_hot_at (n k : nat) : k < n -> one_hot_at n k (one_hot n k).
Proof.
  intros Hk. split; [apply one_hot_length|].
  split; [by apply one_hot_lookup_eq|].
  intros j Hj Hne. by apply one_hot_lookup_ne.
Qed.
End FillProperties.

(** ** The filled arrays, row by row *)

Lemma filled_encoder_row (g : tables) (i t : nat) (txt : text) :
  tables_wf g -> SPACE ∈ input_characters g ->
  input_texts g !! i = Some txt -> t < max_encoder_seq_length g ->
  exists k row,
    input_token_index g !! default SPACE (txt !! t) = Some k
    /\ encoder_input_data (filled_arrays g) !! i ≫= (.!! t) = Some row
    /\ one_hot_at (num_encoder_tokens g) k row.
Proof.
  intros Hwf Hsp Htxt Ht.
  destruct (proj1 (Forall_lookup _ _) (wf_input_texts g Hwf) i txt Htxt)
    as [Hlen Hchars].
  assert (default SPACE (txt !! t) ∈ input_characters g) as Hc.
  { destruct (txt !! t) as [c|] eqn:Hc; [|done]. simpl.
    by apply (proj1 (Forall_lookup _ _) Hchars t c). }
  destruct (input_token_index_lookup g Hwf _ Hc) as (k & Hk & Hlt).
  exists k, (one_hot (num_encoder_tokens g) k).
  split; [done|]. split; [|by apply one_hot_one_hot_at].
  unfold filled_arrays. cbn [encoder_input_data].
  rewrite list_lookup_fmap, Htxt. simpl.
  rewrite encode_text_lookup by done. by rewrite (encode_Some _ _ _ _ Hk).
Qed.

Lemma filled_decoder_row (g : tables) (i t : nat) (txt : text) :
  tables_wf g -> SPACE ∈ target_characters g \/ t < length txt ->
  target_texts g !! i = Some txt -> t < max_decoder_seq_length g ->
  exists k row,
    target_token_index g !! default SPACE (txt !! t) = Some k
    /\ decoder_input_data (filled_arrays g) !! i ≫= (.!! t) = Some row
    /\ one_hot_at (num_decoder_tokens g) k row.
Proof.
  intros Hwf Hsp Htxt Ht.
  destruct (proj1 (Forall_lookup _ _) (wf_target_texts g Hwf) i txt Htxt)
    as (Hlen & Hchars & _).
  assert (default SPACE (txt !! t) ∈ target_characters g) as Hc.
  { destruct (txt !! t) as [c|] eqn:Hc.
    - simpl. by apply (proj1 (Forall_lookup _ _) Hchars t c).
    - simpl. destruct Hsp as [?|Hlt]; [done|].
      apply lookup_ge_None in Hc. lia. }
  destruct (target_token_index_lookup g Hwf _ Hc) as (k & Hk & Hlt).
  exists k, (one_hot (num_decoder_tokens g) k).
  split; [done|]. split; [|by apply one_hot_one_hot_at].
  unfold filled_arrays. cbn [decoder_input_data].
  rewrite list_lookup_fmap, Htxt. simpl.
  rewrite encode_text_lookup by done. by rewrite (encode_Some _ _ _ _ Hk).
Qed.

Lemma filled_target_row (g : tables) (i t : nat) (txt : text) :
  tables_wf g -> SPACE ∈ target_characters g \/ S t < length txt ->
  target_texts g !! i = Some txt -> t < max_decoder_seq_length g ->
  exists k row,
    target_token_index g !! default SPACE (txt !! S t) = Some k
    /\ decoder_target_data (filled_arrays g) !! i ≫= (.!! t) = Some row
    /\ one_hot_at (num_decoder_tokens g) k row.
Proof.
  intros Hwf Hsp Htxt Ht.
  destruct (proj1 (Forall_lookup _ _) (wf_target_texts g Hwf) i txt Htxt)
    as (Hlen & Hchars & _).
  assert (default SPACE (txt !! S t) ∈ target_characters g) as Hc.
  { destruct (txt !! S t) as [c|] eqn:Hc.
    - simpl. by apply (proj1 (Forall_lookup _ _) Hchars (S t) c).
    - simpl. destruct Hsp as [?|Hlt]; [done|].
      apply lookup_ge_None in Hc. lia. }
  destruct (target_token_index_lookup g Hwf _ Hc) as (k & Hk & Hlt).
  exists k, (one_hot (num_decoder_tokens g) k).
  split; [done|]. split; [|by apply one_hot_one_hot_at].
  unfold filled_arrays. cbn [decoder_target_data].
  rewrite list_lookup_fmap, Htxt. simpl.
  rewrite encode_text_lookup; [|destruct txt; simpl in *; lia|done].
  rewrite lookup_tail. by rewrite (encode_Some _ _ _ _ Hk).
Qed.

(** ** The vectorization cell on concrete files *)

(** A line of two fields stops the reading loop at the unpacking. *)
Example vectorize_cell_two_fields :
  vectorize_cell two_field_data = Raise ValueError.
Proof. vm_compute. reflexivity. Qed.

(** Every line of [sample_data] has three fields, no input text is empty
    and both vocabularies hold the space character: the statements above
    the loops complete, and the loops complete when they are run on the
    arrays just allocated. *)
Example load_phase_sample_data :
  load_phase sample_data = Ok (sample_tables, zero_arrays sample_tables).
Proof. vm_compute. reflexivity. Qed.

Example fill_phase_sample_data :
  fill_phase sample_tables (zero_arrays sample_tables)
  = Ok (filled_arrays sample_tables).
Proof. vm_compute. reflexivity. Qed.

(** The cell as a whole stops at the bare name on the line between the
    allocation of the arrays and the loops. *)
Example vectorize_cell_sample_data :
  vectorize_cell sample_data = Raise NameError.
Proof. vm_compute. reflexivity. Qed.

(** Without a space character in the file the padding raises. *)
Example fill_phase_no_space :
  (ga <- load_phase no_space_data ;; fill_phase ga.1 ga.2) = Raise KeyError.
Proof. vm_compute. reflexivity. Qed.

(** An empty first input text leaves [t] unbound at the padding. *)
Example fill_phase_empty_input :
  (ga <- load_phase empty_input_data ;; fill_phase ga.1 ga.2)
  = Raise NameError.
Proof. vm_compute. reflexivity. Qed.

(** A file without a line break has no sample: [max] raises. *)
Example load_phase_no_line : load_phase [97; 9; 98; 9; 99]%N = Raise ValueError.
Proof. vm_compute. reflexivity. Qed.

(** ** The claims on the data preparation *)

(** The cell never runs to its end: whenever the statements above the
    loops complete, the bare name between them and the loops raises
    [NameError]. *)
Lemma vectorize_cell_never_completes (data : text) (r : tables * arrays) :
  vectorize_cell data <> Ok r.
Proof.
  unfold vectorize_cell. intros Hr. inv_bind Hr. inv_bind Hr.
  vm_compute in E0. discriminate.
Qed.

(** C2, as stated, fails: every line of [two_field_data] has two
    tab-separated fields, and the cell raises [ValueError] when it unpacks
    the first line into three names. *)
Lemma vectorize_cell_needs_three_fields :
  Forall (fun line => 2 <= length (split TAB line))
    (take num_samples (split NL two_field_data))
  /\ loaded_lines two_field_data <> []
  /\ vectorize_cell two_field_data = Raise ValueError
  /\ forall r, vectorize_cell two_field_data <> Ok r.
Proof.
  split; [|split; [|split]].
  - vm_compute. repeat constructor.
  - vm_compute. discriminate.
  - vm_compute. reflexivity.
  - intros r Hr. vm_compute in Hr. discriminate.
Qed.

(** C2, as amended.  For a data file with at least one loaded line, each
    loaded line having exactly three tab-separated fields, the statements of
    the cell from its first line to the allocation of the three arrays
    complete without error, with one sample per loaded line.  If moreover no
    input text is empty and the space character is in both vocabularies,
    the filling loops, run on the arrays just allocated, complete without
    error, and for every loaded sample every timestep of
    [encoder_input_data], [decoder_input_data] and [decoder_target_data]
    holds a one-hot row. *)
Theorem vectorization_completes (data : text) :
  loaded_lines data <> [] ->
  Forall (fun line => length (split TAB line) = 3) (loaded_lines data) ->
  exists g a,
    load_phase data = Ok (g, a)
    /\ length (input_texts g) = length (loaded_lines data)
    /\ (Forall (fun txt => txt <> []) (input_texts g) ->
        SPACE ∈ input_characters g -> SPACE ∈ target_characters g ->
        exists a',
          fill_phase g a = Ok a'
          /\ forall i, i < length (loaded_lines data) ->
               (forall t, t < max_encoder_seq_length g ->
                  exists k row,
                    encoder_input_data a' !! i ≫= (.!! t) = Some row
                    /\ one_hot_at (num_encoder_tokens g) k row)
               /\ (forall t, t < max_decoder_seq_length g ->
                     exists k row,
                       decoder_input_data a' !! i ≫= (.!! t) = Some row
                       /\ one_hot_at (num_decoder_tokens g) k row)
               /\ (forall t, t < max_decoder_seq_length g ->
                     exists k row,
                       decoder_target_data a' !! i ≫= (.!! t) = Some row
                       /\ one_hot_at (num_decoder_tokens g) k row)).
Proof.
  intros Hne Hthree.
  destruct (read_lines_three_fields (loaded_lines data) (Corpus [] [] ∅ ∅)
              Hthree) as [cp Hcp].
  pose proof (read_lines_length _ _ _ Hcp) as Hlen. simpl in Hlen.
  assert (corpus_ok (Corpus [] [] ∅ ∅)) as Hok0
    by (by repeat split; simpl; constructor).
  pose proof (read_lines_corpus_ok _ _ _ Hok0 Hcp) as (Hsame & _ & _).
  destruct (py_max_nonempty (length <$> corpus_input_texts cp)) as [m1 Hm1].
  { intros Hnil. apply fmap_nil_inv in Hnil. rewrite Hnil in Hlen.
    destruct (loaded_lines data); [done | discriminate]. }
  destruct (py_max_nonempty (length <$> corpus_target_texts cp)) as [m2 Hm2].
  { intros Hnil. apply fmap_nil_inv in Hnil. rewrite Hnil in Hsame.
    rewrite Hsame in Hlen. destruct (loaded_lines data); [done | discriminate]. }
  assert (exists g a, load_phase data = Ok (g, a)) as (g & a & Hload).
  { unfold load_phase. rewrite Hcp. cbn [bind]. rewrite Hm1. cbn [bind]. rewrite Hm2.
    cbn [bind]. eauto. }
  exists g, a. split; [done|].
  apply load_phase_Ok in Hload as (Hwf & -> & Hn & _).
  split; [done|]. intros Hin_ne Hsp_in Hsp_tgt.
  exists (filled_arrays g). split; [by apply fill_phase_filled|].
  intros i Hi. rewrite <- Hn in Hi.
  destruct (lookup_lt_is_Some_2 (input_texts g) i Hi) as [itxt Hitxt].
  rewrite (wf_samples g Hwf) in Hi.
  destruct (lookup_lt_is_Some_2 (target_texts g) i Hi) as [ttxt Httxt].
  split; [|split]; intros t Ht.
  - destruct (filled_encoder_row g i t itxt) as (k & row & _ & ? & ?);
      eauto.
  - destruct (filled_decoder_row g i t ttxt) as (k & row & _ & ? & ?);
      eauto.
  - destruct (filled_target_row g i t ttxt) as (k & row & _ & ? & ?);
      eauto.
Qed.

Lemma vectorization_completes_witness :
  loaded_lines sample_data <> []
  /\ Forall (fun line => length (split TAB line) = 3)
       (loaded_lines sample_data)
  /\ Forall (fun txt => txt <> []) (input_texts sample_tables)
  /\ SPACE ∈ input_characters sample_tables
  /\ SPACE ∈ target_characters sample_tables
  /\ exists a',
      fill_phase sample_tables (zero_arrays sample_tables) = Ok a'
      /\ exists k row,
          decoder_target_data a' !! 1 ≫= (.!! 4) = Some row
          /\ one_hot_at (num_decoder_tokens sample_tables) k row.
Proof.
  assert (loaded_lines sample_data <> []) as Hne
    by (vm_compute; discriminate).
  assert (Forall (fun line => length (split TAB line) = 3)
            (loaded_lines sample_data)) as Hthree
    by (vm_compute; repeat constructor).
  assert (Forall (fun txt => txt <> []) (input_texts sample_tables)) as Hin
    by (vm_compute; repeat constructor; discriminate).
  assert (SPACE ∈ input_characters sample_tables) as Hsp_in
    by (vm_compute; repeat constructor).
  assert (SPACE ∈ target_characters sample_tables) as Hsp_tgt
    by (vm_compute; repeat constructor).
  repeat (split; [assumption|]).
  destruct (vectorization_completes sample_data Hne Hthree)
    as (g & a & Hload & Hlen & Hfill).
  rewrite load_phase_sample_data in Hload. injection Hload as <- <-.
  destruct (Hfill Hin Hsp_in Hsp_tgt) as (a' & Hf & Hrows).
  exists a'. split; [exact Hf|].
  destruct (Hrows 1) as (_ & _ & Htgt); [vm_compute; lia|].
  apply (Htgt 4). vm_compute. lia.
Defined.

(** What the filling loops are written to do, when they are run to the
    end on the arrays just allocated: for every sample [i] and every
    position [t] with [1 <= t < length] of the [i]-th target text, row
    [t - 1] of [decoder_target_data[i]] and row [t] of
    [decoder_input_data[i]] are the same one-hot row, that of the character
    at position [t] of the text; and [model.fit] receives
    [decoder_input_data] as the second input of the model (the decoder's)
    and [decoder_target_data] as the training target.  The cell itself
    stops before it reaches the loops. *)
Theorem teacher_forcing_shift (data : text) (g : tables) (a a' : arrays) :
  load_phase data = Ok (g, a) ->
  fill_phase g a = Ok a' ->
  (forall i txt t,
      target_texts g !! i = Some txt -> 1 <= t < length txt ->
      exists c k row,
        txt !! t = Some c
        /\ target_token_index g !! c = Some k
        /\ one_hot_at (num_decoder_tokens g) k row
        /\ decoder_input_data a' !! i ≫= (.!! t) = Some row
        /\ decoder_target_data a' !! i ≫= (.!! (t - 1)) = Some row)
  /\ fit_x (seq2seq_fit a') !! 1 = Some (decoder_input_data a')
  /\ fit_y (seq2seq_fit a') = decoder_target_data a'.
Proof.
  intros Hload Hfill.
  apply load_phase_Ok in Hload as (Hwf & -> & _ & _).
  apply (fill_phase_decoder g Hwf) in Hfill as [Hdec Htgt].
  split; [|done].
  intros i txt t Htxt [Ht1 Ht2]. rewrite Hdec, Htgt.
  destruct (proj1 (Forall_lookup _ _) (wf_target_texts g Hwf) i txt Htxt)
    as (Hlen & _ & _).
  destruct (lookup_lt_is_Some_2 txt t Ht2) as [c Hc].
  destruct (filled_decoder_row g i t txt) as (k & row & Hk & Hrow & Hone);
    [done | by right | done | lia |].
  destruct (filled_target_row g i (t - 1) txt)
    as (k' & row' & Hk' & Hrow' & Hone');
    [done | right; lia | done | lia |].
  replace (S (t - 1)) with t in Hk' by lia.
  rewrite Hc in Hk, Hk'. simpl in Hk, Hk'.
  assert (k' = k) as -> by congruence.
  assert (row' = row) as ->.
  { unfold filled_arrays in Hrow, Hrow'.
    cbn [decoder_input_data decoder_target_data] in Hrow, Hrow'.
    rewrite list_lookup_fmap, Htxt in Hrow, Hrow'. simpl in Hrow, Hrow'.
    rewrite encode_text_lookup in Hrow by (done || lia).
    rewrite encode_text_lookup in Hrow'
      by (destruct txt; simpl in *; lia).
    rewrite lookup_tail in Hrow'.
    replace (S (t - 1)) with t in Hrow' by lia. congruence. }
  exists c, k, row. done.
Qed.

Lemma teacher_forcing_shift_witness :
  load_phase sample_data = Ok (sample_tables, zero_arrays sample_tables)
  /\ fill_phase sample_tables (zero_arrays sample_tables)
     = Ok (filled_arrays sample_tables)
  /\ exists row,
      decoder_input_data (filled_arrays sample_tables) !! 0 ≫= (.!! 1)
        = Some row
      /\ decoder_target_data (filled_arrays sample_tables) !! 0 ≫= (.!! 0)
         = Some row.
Proof.
  assert (load_phase sample_data
          = Ok (sample_tables, zero_arrays sample_tables)) as Hload
    by (vm_compute; reflexivity).
  assert (fill_phase sample_tables (zero_arrays sample_tables)
          = Ok (filled_arrays sample_tables)) as Hfill
    by (vm_compute; reflexivity).
  split; [exact Hload|]. split; [exact Hfill|].
  destruct (teacher_forcing_shift sample_data sample_tables
              (zero_arrays sample_tables) (filled_arrays sample_tables)
              Hload Hfill) as [Hshift _].
  destruct (Hshift 0 [9; 99; 32; 100; 10]%N 1)
    as (c & k & row & _ & _ & _ & Hin & Htgt).
  - vm_compute. reflexivity.
  - simpl. lia.
  - exists row. split; [exact Hin | exact Htgt].
Defined.

(** The cell stops at the bare name: whenever the statements above it
    complete, the line between the allocation of the arrays and the loops
    raises [NameError], and the loops are not run. *)
Lemma vectorize_cell_stops_at_name (data : text) (g : tables) (a : arrays) :
  load_phase data = Ok (g, a) ->
  (ga <- load_phase data ;; eval_name "w") = Raise NameError
  /\ vectorize_cell data = Raise NameError.
Proof.
  intros Hload. unfold vectorize_cell. rewrite Hload. cbn [bind].
  assert (eval_name "w" = Raise NameError) as -> by (vm_compute; reflexivity).
  done.
Qed.

(** A row of an array as [np.zeros] allocated it is not a one-hot row. *)
Lemma np_zeros3_row (n m k i t j : nat) (row : vector) :
  np_zeros3 n m k !! i ≫= (.!! t) = Some row -> ~ one_hot_at k j row.
Proof.
  unfold np_zeros3. intros Hrow (_ & Hone & _).
  destruct (replicate n (replicate m (replicate k 0%Q)) !! i)
    as [sample|] eqn:Hi; [|done].
  apply lookup_replicate in Hi as [-> _]. simpl in Hrow.
  apply lookup_replicate in Hrow as [-> _].
  apply lookup_replicate in Hone as [? _]. done.
Qed.

(** On the arrays the cell leaves behind when it stops at the bare name,
    the arrays as allocated, no position of any target text has the shift
    the loops would have written. *)
Lemma allocated_arrays_no_shift (data : text) (g : tables) (a : arrays)
    (i t : nat) (txt : text) :
  load_phase data = Ok (g, a) ->
  ~ (exists c k row,
       txt !! t = Some c
       /\ target_token_index g !! c = Some k
       /\ one_hot_at (num_decoder_tokens g) k row
       /\ decoder_input_data a !! i ≫= (.!! t) = Some row
       /\ decoder_target_data a !! i ≫= (.!! (t - 1)) = Some row).
Proof.
  intros Hload (c & k & row & _ & _ & Hone & Hin & _).
  apply load_phase_Ok in Hload as (_ & -> & _).
  unfold zero_arrays in Hin. cbn [decoder_input_data] in Hin.
  by apply (np_zeros3_row _ _ _ _ _ k) in Hin.
Qed.

(** C3.  The code misses the claim.  On the data file [sample_data] the
    statements of the vectorization cell above the loops complete, and the
    bare name [w] on the next line raises [NameError]: the cell stops
    there, before the loops that fill the arrays.  The three arrays stay
    bound to what [np.zeros] allocated, and these are the arrays the
    training cell hands to [model.fit], [decoder_input_data] as the
    decoder's input and [decoder_target_data] as the target.  For sample 0,
    whose target text is TAB, c, space, d, NL, and position 1 (the
    character c, token 3), row 1 of [decoder_input_data[0]] and row 0 of
    [decoder_target_data[0]] are rows of zeros: there is no one-hot row
    that both hold, so the shift the claim describes is not there. *)
Theorem teacher_forcing_not_reached :
  load_phase sample_data = Ok (sample_tables, zero_arrays sample_tables)
  /\ (ga <- load_phase sample_data ;; eval_name "w") = Raise NameError
  /\ vectorize_cell sample_data = Raise NameError
  /\ fit_x (seq2seq_fit (zero_arrays sample_tables)) !! 1
     = Some (decoder_input_data (zero_arrays sample_tables))
  /\ fit_y (seq2seq_fit (zero_arrays sample_tables))
     = decoder_target_data (zero_arrays sample_tables)
  /\ target_texts sample_tables !! 0 = Some [9; 99; 32; 100; 10]%N
  /\ target_token_index sample_tables !! 99%N = Some 3
  /\ decoder_input_data (zero_arrays sample_tables) !! 0 ≫= (.!! 1)
     = Some (replicate 7 0%Q)
  /\ decoder_target_data (zero_arrays sample_tables) !! 0 ≫= (.!! 0)
     = Some (replicate 7 0%Q)
  /\ ~ (exists c k row,
         [9; 99; 32; 100; 10]%N !! 1 = Some c
         /\ target_token_index sample_tables !! c = Some k
         /\ one_hot_at (num_decoder_tokens sample_tables) k row
         /\ decoder_input_data (zero_arrays sample_tables) !! 0 ≫= (.!! 1)
            = Some row
         /\ decoder_target_data (zero_arrays sample_tables) !! 0
              ≫= (.!! (1 - 1)) = Some row).
Proof.
  pose proof load_phase_sample_data as Hload.
  destruct (vectorize_cell_stops_at_name _ _ _ Hload) as [Hname Hcell].
  split; [exact Hload|]. split; [exact Hname|]. split; [exact Hcell|].
  split; [reflexivity|]. split; [reflexivity|].
  split; [vm_compute; reflexivity|]. split; [vm_compute; reflexivity|].
  split; [vm_compute; reflexivity|]. split; [vm_compute; reflexivity|].
  by apply (allocated_arrays_no_shift sample_data).
Qed.

(** C9. One-hot invariant.  When no input text is empty and the space
    character is in both vocabularies, the filling loops complete, and for
    every sample [i] and every timestep [t] the rows
    [encoder_input_data[i][t]] and [decoder_input_data[i][t]] hold exactly
    one 1.0 and 0.0 elsewhere: at the index of the character of the text at
    [t], and at the index of the space character from the end of the text
    on. *)
Theorem vectorized_rows_one_hot (data : text) (g : tables) (a : arrays) :
  load_phase data = Ok (g, a) ->
  Forall (fun txt => txt <> []) (input_texts g) ->
  Forall (fun txt => txt <> []) (target_texts g) ->
  SPACE ∈ input_characters g -> SPACE ∈ target_characters g ->
  exists a',
    fill_phase g a = Ok a'
    /\ (forall i txt t,
          input_texts g !! i = Some txt -> t < max_encoder_seq_length g ->
          exists k row,
            input_token_index g !! default SPACE (txt !! t) = Some k
            /\ encoder_input_data a' !! i ≫= (.!! t) = Some row
            /\ one_hot_at (num_encoder_tokens g) k row)
    /\ (forall i txt t,
          target_texts g !! i = Some txt -> t < max_decoder_seq_length g ->
          exists k row,
            target_token_index g !! default SPACE (txt !! t) = Some k
            /\ decoder_input_data a' !! i ≫= (.!! t) = Some row
            /\ one_hot_at (num_decoder_tokens g) k row).
Proof.
  intros Hload Hin_ne _ Hsp_in Hsp_tgt.
  apply load_phase_Ok in Hload as (Hwf & -> & _ & _).
  exists (filled_arrays g). split; [by apply fill_phase_filled|].
  split; intros i txt t Htxt Ht.
  - by apply filled_encoder_row.
  - apply filled_decoder_row; auto.
Qed.

Lemma vectorized_rows_one_hot_witness :
  load_phase sample_data = Ok (sample_tables, zero_arrays sample_tables)
  /\ Forall (fun txt => txt <> []) (input_texts sample_tables)
  /\ Forall (fun txt => txt <> []) (target_texts sample_tables)
  /\ SPACE ∈ input_characters sample_tables
  /\ SPACE ∈ target_characters sample_tables
  /\ exists a',
      fill_phase sample_tables (zero_arrays sample_tables) = Ok a'
      /\ exists k row,
          encoder_input_data a' !! 1 ≫= (.!! 2) = Some row
          /\ one_hot_at (num_encoder_tokens sample_tables) k row.
Proof.
  assert (load_phase sample_data
          = Ok (sample_tables, zero_arrays sample_tables)) as Hload
    by (vm_compute; reflexivity).
  assert (Forall (fun txt => txt <> []) (input_texts sample_tables)) as Hin
    by (vm_compute; repeat constructor; discriminate).
  assert (Forall (fun txt => txt <> []) (target_texts sample_tables)) as Htgt
    by (vm_compute; repeat constructor; discriminate).
  assert (SPACE ∈ input_characters sample_tables) as Hsp_in
    by (vm_compute; repeat constructor).
  assert (SPACE ∈ target_characters sample_tables) as Hsp_tgt
    by (vm_compute; repeat constructor).
  repeat (split; [assumption|]).
  destruct (vectorized_rows_one_hot sample_data sample_tables
              (zero_arrays sample_tables) Hload Hin Htgt Hsp_in Hsp_tgt)
    as (a' & Hfill & Henc & _).
  exists a'. split; [exact Hfill|].
  destruct (Henc 1 [98]%N 2) as (k & row & _ & Hrow & Hone).
  - vm_compute. reflexivity.
  - vm_compute. lia.
  - exists k, row. split; [exact Hrow | exact Hone].
Defined.

(** C10. The reverse lookup tables invert the token indices: every
    character of the sorted target vocabulary has an index that
    [reverse_target_char_index] maps back to it, every index below
    [num_decoder_tokens] has a character that [target_token_index] maps back
    to it, and the same holds for the input tables. *)
Theorem reverse_tables_invert (data : text) (g : tables) (a : arrays) :
  load_phase data = Ok (g, a) ->
  (forall c, c ∈ target_characters g ->
     exists k, target_token_index g !! c = Some k
               /\ reverse_target_char_index g !! k = Some c)
  /\ (forall k, k < num_decoder_tokens g ->
        exists c, reverse_target_char_index g !! k = Some c
                  /\ target_token_index g !! c = Some k)
  /\ (forall c, c ∈ input_characters g ->
        exists k, input_token_index g !! c = Some k
                  /\ reverse_input_char_index g !! k = Some c)
  /\ (forall k, k < num_encoder_tokens g ->
        exists c, reverse_input_char_index g !! k = Some c
                  /\ input_token_index g !! c = Some k).
Proof.
  intros Hload. apply load_phase_Ok in Hload as (Hwf & _ & _ & _).
  unfold reverse_target_char_index, reverse_input_char_index.
  rewrite (wf_target_token_index g Hwf), (wf_input_token_index g Hwf),
    (wf_num_decoder_tokens g Hwf), (wf_num_encoder_tokens g Hwf).
  pose proof (wf_target_NoDup g Hwf) as Htgt.
  pose proof (wf_input_NoDup g Hwf) as Hin.
  repeat split.
  - intros c Hc. apply list_elem_of_lookup_1 in Hc as [k Hk]. exists k.
    by rewrite token_index_lookup, reverse_token_index_lookup.
  - intros k Hk. destruct (lookup_lt_is_Some_2 _ _ Hk) as [c Hc]. exists c.
    by rewrite token_index_lookup, reverse_token_index_lookup.
  - intros c Hc. apply list_elem_of_lookup_1 in Hc as [k Hk]. exists k.
    by rewrite token_index_lookup, reverse_token_index_lookup.
  - intros k Hk. destruct (lookup_lt_is_Some_2 _ _ Hk) as [c Hc]. exists c.
    by rewrite token_index_lookup, reverse_token_index_lookup.
Qed.

Lemma reverse_tables_invert_witness :
  load_phase sample_data = Ok (sample_tables, zero_arrays sample_tables)
  /\ exists k,
      target_token_index sample_tables !! NL = Some k
      /\ reverse_target_char_index sample_tables !! k = Some NL.
Proof.
  assert (load_phase sample_data
          = Ok (sample_tables, zero_arrays sample_tables)) as Hload
    by (vm_compute; reflexivity).
  split; [exact Hload|].
  destruct (reverse_tables_invert sample_data sample_tables
              (zero_arrays sample_tables) Hload) as (Htgt & _).
  apply (Htgt NL). vm_compute. repeat constructor.
Defined.

(** ** Reshaping *)

Lemma length_concat_uniform {A} (m : nat) (ls : list (list A)) :
  Forall (fun l => length l = m) ls ->
  length (concat ls) = length ls * m.
Proof.
  induction 1 as [|l ls Hl _ IH]; simpl; [done|].
  rewrite length_app, IH, Hl. lia.
Qed.

Lemma lookup_concat_uniform {A} (m : nat) (ls : list (list A)) (i j : nat)
    (l : list A) (x : A) :
  Forall (fun l => length l = m) ls ->
  ls !! i = Some l -> l !! j = Some x ->
  concat ls !! (i * m + j) = Some x.
Proof.
  intros Hall. revert i. induction Hall as [|l0 ls Hl0 _ IH]; intros i Hi Hj.
  - done.
  - destruct i as [|i]; simpl in *.
    + injection Hi as ->. by apply lookup_app_l_Some.
    + rewrite lookup_app_r by lia.
      replace (m + i * m + j - length l0) with (i * m + j) by lia.
      by apply IH.
Qed.

Lemma Forall_concat_uniform {A} (P : A -> Prop) (ls : list (list A)) :
  Forall (Forall P) ls -> Forall P (concat ls).
Proof.
  induction 1 as [|l ls Hl _ IH]; simpl; [done|]. by apply Forall_app.
Qed.

Lemma rows_of_length {A} (rows cols : nat) (flat : list A) :
  length (rows_of rows cols flat) = rows.
Proof.
  revert flat. induction rows as [|rows IH]; intros flat; simpl; [done|].
  by rewrite IH.
Qed.

Lemma rows_of_widths {A} (rows cols : nat) (flat : list A) :
  length flat = rows * cols ->
  Forall (fun row => length row = cols) (rows_of rows cols flat).
Proof.
  revert flat. induction rows as [|rows IH]; intros flat Hlen; simpl; [done|].
  apply Forall_cons. split.
  - rewrite length_take. simpl in Hlen. lia.
  - apply IH. rewrite length_drop. simpl in Hlen. lia.
Qed.

Lemma rows_of_concat {A} (rows cols : nat) (flat : list A) :
  length flat = rows * cols -> concat (rows_of rows cols flat) = flat.
Proof.
  revert flat. induction rows as [|rows IH]; intros flat Hlen; simpl.
  - by destruct flat.
  - rewrite IH by (rewrite length_drop; simpl in Hlen; lia).
    apply take_drop.
Qed.

Lemma rows_of_item {A} (rows cols : nat) (flat : list A) (i j : nat) :
  i < rows -> j < cols ->
  item2 (rows_of rows cols flat) i j = flat !! (i * cols + j).
Proof.
  unfold item2. revert flat i.
  induction rows as [|rows IH]; intros flat i Hi Hj; [lia|].
  destruct i as [|i]; simpl.
  - by rewrite lookup_take_lt.
  - rewrite IH by lia. rewrite lookup_drop. f_equal. lia.
Qed.

(** The flat buffer of an array of images, element by element. *)
Lemma ravel4_images (n : nat) (X : images) (i r c ch : nat) (px : Z) :
  image_shape n X ->
  pixel X i r c ch = Some px ->
  length (ravel4 X) = n * 3072
  /\ i < n /\ (r * 32 + c) * 3 + ch < 3072
  /\ ravel4 X !! (i * 3072 + ((r * 32 + c) * 3 + ch)) = Some px.
Proof.
  intros [Hn Himgs] Hpx. unfold pixel in Hpx.
  destruct (X !! i) as [img|] eqn:Himg; [|done]. simpl in Hpx.
  destruct (img !! r) as [row|] eqn:Hrow; [|done]. simpl in Hpx.
  destruct (row !! c) as [p|] eqn:Hp; [|done]. simpl in Hpx.
  assert (Forall (fun img : list (list (list Z)) => length img = 32) X) as H1.
  { eapply Forall_impl; [exact Himgs|]. by intros ? [? _]. }
  assert (Forall (fun row : list (list Z) => length row = 32) (concat X))
    as H2.
  { apply Forall_concat_uniform.
    eapply Forall_impl; [exact Himgs|]. intros ? [_ Hrows].
    eapply Forall_impl; [exact Hrows|]. by intros ? [? _]. }
  assert (Forall (fun p : list Z => length p = 3) (concat (concat X))) as H3.
  { do 2 apply Forall_concat_uniform.
    eapply Forall_impl; [exact Himgs|]. intros ? [_ Hrows].
    eapply Forall_impl; [exact Hrows|]. by intros ? [_ ?]. }
  pose proof (lookup_lt_Some _ _ _ Himg) as Hi.
  pose proof (lookup_lt_Some _ _ _ Hrow) as Hr.
  pose proof (lookup_lt_Some _ _ _ Hp) as Hc.
  pose proof (lookup_lt_Some _ _ _ Hpx) as Hch.
  rewrite (proj1 (Forall_lookup _ _) H1 i img Himg) in Hr.
  pose proof (lookup_concat_uniform 32 X i r img row H1 Himg Hrow) as Hrow'.
  rewrite (proj1 (Forall_lookup _ _) H2 _ row Hrow') in Hc.
  pose proof (lookup_concat_uniform 32 (concat X) (i * 32 + r) c row p
                H2 Hrow' Hp) as Hp'.
  rewrite (proj1 (Forall_lookup _ _) H3 _ p Hp') in Hch.
  pose proof (lookup_concat_uniform 3 (concat (concat X))
                ((i * 32 + r) * 32 + c) ch p px H3 Hp' Hpx) as Hpx'.
  unfold ravel4.
  rewrite (length_concat_uniform 3) by done.
  rewrite (length_concat_uniform 32) by done.
  rewrite (length_concat_uniform 32) by done.
  split; [lia|]. split; [lia|]. split; [lia|].
  rewrite <- Hpx'. f_equal. lia.
Qed.

Lemma ravel4_length (n : nat) (X : images) :
  image_shape n X -> length (ravel4 X) = n * 3072.
Proof.
  intros [Hn Himgs]. unfold ravel4.
  rewrite (length_concat_uniform 3).
  - rewrite (length_concat_uniform 32).
    + rewrite (length_concat_uniform 32); [lia|].
      eapply Forall_impl; [exact Himgs|]. by intros ? [? _].
    + apply Forall_concat_uniform.
      eapply Forall_impl; [exact Himgs|]. intros ? [_ Hrows].
      eapply Forall_impl; [exact Hrows|]. by intros ? [? _].
  - do 2 apply Forall_concat_uniform.
    eapply Forall_impl; [exact Himgs|]. intros ? [_ Hrows].
    eapply Forall_impl; [exact Hrows|]. by intros ? [_ ?].
Qed.

(** Reshaping [n] images to [n] rows of 3072 elements succeeds, keeps the
    elements in their order, and puts the element at row [r], column [c]
    and channel [ch] of image [i] at column [(r * 32 + c) * 3 + ch] of row
    [i]. *)
Lemma reshape_images (n : nat) (X : images) :
  image_shape n X ->
  exists R,
    reshape n 3072 X = Ok R
    /\ length R = n
    /\ Forall (fun row => length row = 3072) R
    /\ concat R = ravel4 X
    /\ forall i r c ch px,
         pixel X i r c ch = Some px ->
         item2 R i ((r * 32 + c) * 3 + ch) = Some px.
Proof.
  intros Hshape. pose proof (ravel4_length n X Hshape) as Hlen.
  exists (rows_of n 3072 (ravel4 X)). unfold reshape.
  rewrite decide_True by done.
  split; [done|]. split; [apply rows_of_length|].
  split; [by apply rows_of_widths|]. split; [by apply rows_of_concat|].
  intros i r c ch px Hpx.
  destruct (ravel4_images n X i r c ch px Hshape Hpx) as (_ & Hi & Hj & Hflat).
  by rewrite rows_of_item.
Qed.

Lemma gaussian_normalization_item {float64 : Type} (of_uint8 : Z -> float64)
    (float_sub float_div : float64 -> float64 -> float64)
    (np_mean np_std : list (list Z) -> float64)
    (X : list (list Z)) (i j : nat) :
  item2 (gaussian_normalization float64 of_uint8 float_sub float_div
           np_mean np_std X) i j
  = (fun x => float_div (float_sub (of_uint8 x) (np_mean X)) (np_std X))
      <$> item2 X i j.
Proof.
  unfold item2, gaussian_normalization.
  change (map ?f ?l) with (f <$> l).
  rewrite list_lookup_fmap. destruct (X !! i) as [row|]; simpl; [|done].
  change (map ?f ?l) with (f <$> l). by rewrite list_lookup_fmap.
Qed.

(** C7. The preprocessing cell reshapes the 50,000 training images and the
    10,000 test images to rows of 3072 = 3 * 32 * 32 elements, keeping every
    element and their order (the element at row [r], column [c], channel
    [ch] of image [i] is element [(r * 32 + c) * 3 + ch] of row [i]), and
    then replaces every element [x] of the training array by
    [(x - mean) / std] with [np.mean] and [np.std] of the whole reshaped
    training array, and every element of the test array likewise with
    [np.mean] and [np.std] of the whole reshaped test array. *)
Theorem preprocess_reshapes_and_normalizes {float64 : Type}
    (of_uint8 : Z -> float64)
    (float_sub float_div : float64 -> float64 -> float64)
    (np_mean np_std : list (list Z) -> float64)
    (X_train X_test : images) :
  image_shape 50000 X_train -> image_shape 10000 X_test ->
  exists R_train R_test N_train N_test,
    reshape 50000 3072 X_train = Ok R_train
    /\ reshape 10000 3072 X_test = Ok R_test
    /\ preprocess float64 of_uint8 float_sub float_div np_mean np_std
         X_train X_test = Ok (N_train, N_test)
    /\ (length R_train = 50000
        /\ Forall (fun row => length row = 3072) R_train
        /\ concat R_train = ravel4 X_train
        /\ forall i r c ch px,
             pixel X_train i r c ch = Some px ->
             item2 R_train i ((r * 32 + c) * 3 + ch) = Some px)
    /\ (length R_test = 10000
        /\ Forall (fun row => length row = 3072) R_test
        /\ concat R_test = ravel4 X_test
        /\ forall i r c ch px,
             pixel X_test i r c ch = Some px ->
             item2 R_test i ((r * 32 + c) * 3 + ch) = Some px)
    /\ (forall i j,
          item2 N_train i j
          = (fun x => float_div (float_sub (of_uint8 x) (np_mean R_train))
                        (np_std R_train)) <$> item2 R_train i j)
    /\ (forall i j,
          item2 N_test i j
          = (fun x => float_div (float_sub (of_uint8 x) (np_mean R_test))
                        (np_std R_test)) <$> item2 R_test i j).
Proof.
  intros Htrain Htest.
  destruct (reshape_images _ X_train Htrain)
    as (R_train & Hr1 & Hlen1 & Hw1 & Hc1 & Hpx1).
  destruct (reshape_images _ X_test Htest)
    as (R_test & Hr2 & Hlen2 & Hw2 & Hc2 & Hpx2).
  exists R_train, R_test.
  exists (gaussian_normalization float64 of_uint8 float_sub float_div
            np_mean np_std R_train).
  exists (gaussian_normalization float64 of_uint8 float_sub float_div
            np_mean np_std R_test).
  split; [done|]. split; [done|]. split.
  { unfold preprocess. rewrite Hr1. cbn [bind]. rewrite Hr2. done. }
  split; [done|]. split; [done|].
  split; intros i j; apply gaussian_normalization_item.
Qed.

Lemma blank_images_shape (n : nat) : image_shape n (blank_images n).
Proof.
  unfold image_shape, blank_images. split; [apply length_replicate|].
  apply Forall_replicate. split; [apply length_replicate|].
  apply Forall_replicate. split; [apply length_replicate|].
  apply Forall_replicate. apply length_replicate.
Qed.

(** The cell on black images, with rationals for [float64] and constants
    for the two reductions. *)
Lemma preprocess_reshapes_and_normalizes_witness :
  image_shape 50000 (blank_images 50000)
  /\ image_shape 10000 (blank_images 10000)
  /\ exists N_train N_test,
      preprocess Q inject_Z Qminus Qdiv (fun _ => 0%Q) (fun _ => 1%Q)
        (blank_images 50000) (blank_images 10000) = Ok (N_train, N_test).
Proof.
  split; [apply blank_images_shape|]. split; [apply blank_images_shape|].
  destruct (preprocess_reshapes_and_normalizes inject_Z Qminus Qdiv
              (fun _ => 0%Q) (fun _ => 1%Q)
              (blank_images 50000) (blank_images 10000)
              (blank_images_shape 50000) (blank_images_shape 10000))
    as (R_train & R_test & N_train & N_test & _ & _ & Hp & _).
  exists N_train, N_test. exact Hp.
Defined.

(** ** Early stopping *)

Lemma is_improvement_Some (current b : Q) :
  is_improvement current (Some b) = true <-> (current < b)%Q.
Proof.
  unfold is_improvement. rewrite negb_true_iff. split.
  - intros Hle. apply Qnot_le_lt. intros Hc.
    apply Qle_bool_iff in Hc. congruence.
  - intros Hlt. destruct (Qle_bool b current) eqn:Hle; [|done].
    apply Qle_bool_iff in Hle. exfalso. by apply (Qlt_not_le current b).
Qed.

(** The callback's test agrees with [improves]. *)
Lemma is_improvement_improves (monitored : nat -> Q) (epoch : nat)
    (cb : early_stopping) :
  callback_inv monitored epoch cb ->
  is_improvement (monitored epoch) (best cb) = true <->
  improves monitored epoch.
Proof.
  intros (_ & _ & [(-> & _ & ->)|(_ & (j & Hj & -> & Hmin) & _)] & _).
  - split; [|done]. intros _ j Hj. lia.
  - rewrite is_improvement_Some. split.
    + intros Hlt i Hi. apply Qlt_le_trans with (monitored j); auto.
    + intros Himp. by apply Himp.
Qed.

Lemma callback_inv_init (monitored : nat -> Q) :
  callback_inv monitored 0 early_stopping_monitor.
Proof.
  unfold callback_inv, early_stopping_monitor. simpl.
  split; [done|]. split; [lia|]. split; [by left|].
  split; intros; lia.
Qed.

(** An epoch that improves resets the callback. *)
Lemma callback_inv_improved (monitored : nat -> Q) (epoch : nat)
    (cb : early_stopping) :
  callback_inv monitored epoch cb ->
  improves monitored epoch ->
  callback_inv monitored (S epoch)
    (EarlyStopping (patience cb) 0 (Some (monitored epoch))).
Proof.
  intros (Hp & Hw & Hbest & Hstreak & Hnot) Himp.
  unfold callback_inv. simpl.
  split; [done|]. split; [lia|]. split; [right|split].
  - split; [lia|]. split.
    + exists epoch. split; [lia|]. split; [done|].
      intros i Hi. destruct (decide (i = epoch)) as [->|Hne].
      * apply Qle_refl.
      * apply Qlt_le_weak, Himp. lia.
    + match goal with
      | |- improves _ ?x => by replace x with epoch by lia
      end.
  - intros j Hj. lia.
  - intros e He [_ Hst]. destruct (decide (e = epoch)) as [->|Hne].
    + apply (Hst epoch); [lia | done].
    + apply (Hnot e); [lia|]. split; [|done].
      destruct (decide (6 <= e)); [done|]. exfalso.
      apply (Hst 0); [lia|]. intros j Hj. lia.
Qed.

(** An epoch that does not improve, short of the patience, lengthens the
    wait. *)
Lemma callback_inv_waited (monitored : nat -> Q) (epoch : nat)
    (cb : early_stopping) :
  callback_inv monitored epoch cb ->
  ~ improves monitored epoch ->
  S (wait cb) < 7 ->
  callback_inv monitored (S epoch)
    (EarlyStopping (patience cb) (S (wait cb)) (best cb)).
Proof.
  intros Hinv Hno Hshort.
  pose proof (is_improvement_improves monitored epoch cb Hinv) as Htest.
  destruct Hinv as (Hp & Hw & Hbest & Hstreak & Hnot).
  destruct Hbest as [(-> & _ & _)|(Hwe & (j & Hj & Hb & Hmin) & Hprev)].
  { exfalso. apply Hno. intros j Hj. lia. }
  unfold callback_inv. simpl.
  split; [done|]. split; [lia|]. split; [right|split].
  - split; [lia|]. split.
    + exists j. split; [lia|]. split; [done|].
      intros i Hi. destruct (decide (i = epoch)) as [->|Hne]; [|apply Hmin; lia].
      destruct (Qlt_le_dec (monitored epoch) (monitored j)) as [Hlt|Hle];
        [|done].
      exfalso. apply Hno, Htest. rewrite Hb. by apply is_improvement_Some.
    + match goal with
      | |- improves _ ?x => by replace x with (epoch - wait cb - 1) by lia
      end.
  - intros i Hi. destruct (decide (i = epoch)) as [->|Hne]; [done|].
    apply Hstreak. lia.
  - intros e He [H6 Hst]. destruct (decide (e = epoch)) as [->|Hne].
    + apply (Hst (epoch - wait cb - 1)); [lia | done].
    + apply (Hnot e); [lia|]. by split.
Qed.

(** The training loop: it runs between one and [remaining] more epochs,
    halts at the first epoch after which the metric has stalled, and halts
    early only then. *)
Lemma run_epochs_spec (monitored : nat -> Q) (remaining epoch : nat)
    (cb : early_stopping) :
  callback_inv monitored epoch cb ->
  epoch <= run_epochs monitored remaining epoch cb <= epoch + remaining
  /\ (0 < remaining -> epoch < run_epochs monitored remaining epoch cb)
  /\ (forall e, stalled monitored e ->
        e < epoch + remaining ->
        run_epochs monitored remaining epoch cb <= S e)
  /\ (run_epochs monitored remaining epoch cb < epoch + remaining ->
      stalled monitored (run_epochs monitored remaining epoch cb - 1)).
Proof.
  revert epoch cb. induction remaining as [|remaining IH]; intros epoch cb Hinv.
  - simpl. split; [lia|]. split; [lia|]. split; [|lia].
    intros e Hst He. destruct Hinv as (_ & _ & _ & _ & Hnot).
    exfalso. apply (Hnot e); [lia | done].
  - pose proof (is_improvement_improves monitored epoch cb Hinv) as Htest.
    simpl. unfold on_epoch_end.
    destruct (is_improvement (monitored epoch) (best cb)) eqn:Himp.
    + assert (improves monitored epoch) as Hyes by (by apply Htest).
      pose proof (callback_inv_improved monitored epoch cb Hinv Hyes) as Hinv'.
      destruct (IH (S epoch) _ Hinv') as (Hb & _ & Hhalt & Hearly).
      split; [lia|]. split; [lia|]. split.
      * intros e Hst He. apply Hhalt; [done | lia].
      * intros Hlt. apply Hearly. lia.
    + assert (~ improves monitored epoch) as Hno.
      { intros Hyes. apply Htest in Hyes. discriminate. }
      destruct Hinv as (Hp & Hw & Hbest & Hstreak & Hnot).
      rewrite Hp.
      destruct (7 <=? S (wait cb)) eqn:Hpat.
      * apply Nat.leb_le in Hpat.
        assert (stalled monitored epoch) as Hst.
        { destruct Hbest as [(_ & Hw0 & _)|(Hwe & _ & _)]; [lia|].
          split; [lia|]. intros j Hj.
          destruct (decide (j = epoch)) as [->|Hne]; [done|].
          apply Hstreak. lia. }
        split; [lia|]. split; [lia|]. split.
        -- intros e Hst' He. destruct (decide (e < epoch)); [|lia].
           exfalso. by apply (Hnot e).
        -- intros _. by replace (S epoch - 1) with epoch by lia.
      * apply Nat.leb_gt in Hpat.
        assert (callback_inv monitored (S epoch)
                  (EarlyStopping 7 (S (wait cb)) (best cb))) as Hinv'.
        { rewrite <- Hp.
          apply callback_inv_waited; [|done|lia].
          by repeat split. }
        destruct (IH (S epoch) _ Hinv') as (Hb & _ & Hhalt & Hearly).
        split; [lia|]. split; [lia|]. split.
        -- intros e Hst He. apply Hhalt; [done | lia].
        -- intros Hlt. apply Hearly. lia.
Qed.

(** C6. The MLP training call.  [model.fit] is invoked with an
    early-stopping callback of patience 7 and 50 epochs: training runs at
    least one and never more than 50 epochs, it halts as soon as the
    monitored validation metric has failed to improve for 7 consecutive
    epochs, and it halts before the 50th epoch only for that reason. *)
Theorem training_halts (monitored : nat -> Q) :
  patience early_stopping_monitor = 7
  /\ 1 <= model_fit monitored <= 50
  /\ (forall e, e < 50 -> stalled monitored e -> model_fit monitored <= S e)
  /\ (model_fit monitored < 50 ->
      stalled monitored (model_fit monitored - 1)).
Proof.
  unfold model_fit.
  destruct (run_epochs_spec monitored 50 0 early_stopping_monitor
              (callback_inv_init monitored))
    as (Hbounds & Hpos & Hhalt & Hearly).
  split; [done|]. split; [|split].
  - assert (0 < 50) as H50 by (apply Nat.lt_0_succ).
    apply Hpos in H50. lia.
  - intros e He Hst. by apply Hhalt.
  - intros Hlt. by apply Hearly.
Qed.

(** On the validation losses printed under the training cell the call runs
    49 epochs, as the notebook's output shows: the best loss is that of
    epoch 42 and the seven epochs after it do not improve on it. *)
Example model_fit_recorded : model_fit recorded = 49.
Proof. vm_compute. reflexivity. Qed.

(** * Further properties of the notebooks *)

(** ** The reading loop, line by line *)

Lemma read_line_Raise (cp : corpus) (line : text) (e : exn) :
  read_line cp line = Raise e ->
  e = ValueError /\ length (split TAB line) <> 3.
Proof.
  unfold read_line.
  destruct (split TAB line) as [|f1 [|f2 [|f3 [|f4 fs]]]]; simpl;
    try discriminate; by intros [= <-].
Qed.

(** The reading loop either visits every line, each of three fields, or
    stops with [ValueError] at a line that has another number of fields. *)
Lemma read_lines_result (lines : list text) (cp : corpus) :
  (Forall (fun line => length (split TAB line) = 3) lines
   /\ exists cp', for_each read_line lines cp = Ok cp')
  \/ (Exists (fun line => length (split TAB line) <> 3) lines
      /\ for_each read_line lines cp = Raise ValueError).
Proof.
  revert cp. induction lines as [|line lines IH]; intros cp; simpl.
  - left. split; [constructor | eauto].
  - destruct (read_line cp line) as [cp1|e] eqn:Hr; simpl.
    + apply read_line_Ok in Hr as (f1 & f2 & f3 & Hs & _).
      destruct (IH cp1) as [[Hall Hok]|[Hex Hraise]].
      * left. split; [|done]. constructor; [by rewrite Hs | done].
      * right. split; [by apply Exists_cons_tl | done].
    + apply read_line_Raise in Hr as [-> Hlen].
      right. split; [by apply Exists_cons_hd | done].
Qed.

(** The texts the reading loop appends, in the order of the lines: the
    first field of each line, and its second field between the start and
    the end character. *)
Lemma read_lines_texts (lines : list text) (cp cp' : corpus) :
  for_each read_line lines cp = Ok cp' ->
  corpus_input_texts cp'
  = corpus_input_texts cp
    ++ ((fun line => default [] (split TAB line !! 0)) <$> lines)
  /\ corpus_target_texts cp'
     = corpus_target_texts cp
       ++ ((fun line => [TAB] ++ default [] (split TAB line !! 1) ++ [NL])
             <$> lines).
Proof.
  revert cp. induction lines as [|line lines IH]; intros cp; simpl.
  - intros [= <-]. by rewrite !app_nil_r.
  - intros Hr. inv_bind Hr. apply IH in Hr as [-> ->].
    apply read_line_Ok in E as (f1 & f2 & f3 & Hs & ->). simpl.
    rewrite Hs. simpl. by rewrite <- !app_assoc.
Qed.

(** The characters collected are those of the texts read, no others. *)
Lemma read_lines_characters (lines : list text) (cp cp' : corpus) (c : char) :
  for_each read_line lines cp = Ok cp' ->
  (c ∈ corpus_input_characters cp' <->
   c ∈ corpus_input_characters cp
   \/ exists line, line ∈ lines /\ c ∈ default [] (split TAB line !! 0))
  /\ (c ∈ corpus_target_characters cp' <->
      c ∈ corpus_target_characters cp
      \/ exists line,
          line ∈ lines
          /\ c ∈ [TAB] ++ default [] (split TAB line !! 1) ++ [NL]).
Proof.
  revert cp. induction lines as [|line lines IH]; intros cp Hr.
  - simpl in Hr. injection Hr as <-.
    split; (split; [by left|]);
      (intros [?|(l & Hin & _)]; [done | by apply elem_of_nil in Hin]).
  - simpl in Hr. inv_bind Hr. destruct (IH _ Hr) as [Hin Htgt].
    apply read_line_Ok in E as (f1 & f2 & f3 & Hs & ->).
    cbn [corpus_input_characters corpus_target_characters] in Hin, Htgt.
    rewrite Hin, Htgt, !elem_of_add_characters.
    split; split.
    + intros [[?|?]|(l & ? & ?)]; [by left| |].
      * right. exists line. split; [by left | by rewrite Hs].
      * right. exists l. split; [by right | done].
    + intros [?|(l & [->|?]%elem_of_cons & Hc)].
      * by left; left.
      * rewrite Hs in Hc. by left; right.
      * right. eauto.
    + intros [[?|?]|(l & ? & ?)]; [by left| |].
      * right. exists line. split; [by left | by rewrite Hs].
      * right. exists l. split; [by right | done].
    + intros [?|(l & [->|?]%elem_of_cons & Hc)].
      * by left; left.
      * rewrite Hs in Hc. by left; right.
      * right. eauto.
Qed.

Lemma py_max_attained (l : list nat) (m : nat) :
  py_max l = Ok m -> m ∈ l.
Proof.
  destruct l as [|x l]; simpl; [discriminate|]. intros [= <-].
  assert (forall l acc, fold_left Nat.max l acc = acc
                        \/ fold_left Nat.max l acc ∈ l) as Hfold.
  { clear. induction l as [|y l IH]; intros acc; simpl; [by left|].
    destruct (IH (Nat.max acc y)) as [->|Hin].
    - destruct (Nat.max_spec acc y) as [[_ ->]|[_ ->]];
        [right; by left | by left].
    - right. by right. }
  destruct (Hfold l x) as [->|Hin]; [by left | by right].
Qed.

(** A duplicate-free list sorted by [<=] is strictly increasing. *)
Lemma sorted_strict (s : gset N) : StronglySorted N.lt (sorted s).
Proof.
  pose proof (sorted_NoDup s) as Hnd.
  assert (StronglySorted N.le (sorted s)) as Hsorted
    by apply (StronglySorted_merge_sort N.le).
  induction Hsorted as [|x l _ IH Hall]; [constructor|].
  apply NoDup_cons in Hnd as [Hx Hnd].
  constructor; [by apply IH|].
  apply Forall_forall. intros y Hy.
  pose proof (proj1 (Forall_forall _ _) Hall y Hy) as Hle.
  apply N.le_lteq in Hle as [Hlt|Heq]; [done|]. by subst.
Qed.

Lemma StronglySorted_lookup_lt (l : text) (i j : nat) (x y : char) :
  StronglySorted N.lt l -> l !! i = Some x -> l !! j = Some y ->
  i < j <-> (x < y)%N.
Proof.
  intros Hs. revert i j.
  assert (forall x' y' i j, l !! i = Some x' -> l !! j = Some y' -> i < j ->
                            (x' < y')%N) as Hmono'.
  { clear -Hs. induction Hs as [|z l _ IH Hall]; intros x' y' i j Hi Hj Hlt.
    - done.
    - destruct i as [|i], j as [|j]; simpl in *; try lia.
      + injection Hi as ->.
        apply (proj1 (Forall_forall _ _) Hall y').
        by apply list_elem_of_lookup_2 in Hj.
      + apply (IH x' y' i j); auto. lia. }
  intros i j Hi Hj. split; [by apply (Hmono' x y i j)|].
  intros Hxy. destruct (decide (i < j)) as [?|Hge]; [done|]. exfalso.
  destruct (decide (i = j)) as [->|Hne].
  - assert (x = y) by congruence. subst. lia.
  - assert ((y < x)%N) by (apply (Hmono' y x j i); auto; lia). lia.
Qed.

(** Everything a successful run of the statements above the loops fixes. *)
Lemma load_phase_inv (data : text) (g : tables) (a : arrays) :
  load_phase data = Ok (g, a) ->
  exists cp,
    for_each read_line (loaded_lines data) (Corpus [] [] ∅ ∅) = Ok cp
    /\ input_texts g = corpus_input_texts cp
    /\ target_texts g = corpus_target_texts cp
    /\ input_characters g = sorted (corpus_input_characters cp)
    /\ target_characters g = sorted (corpus_target_characters cp)
    /\ py_max (length <$> input_texts g) = Ok (max_encoder_seq_length g)
    /\ py_max (length <$> target_texts g) = Ok (max_decoder_seq_length g).
Proof.
  unfold load_phase. intros Hl.
  inv_bind Hl. inv_bind Hl. inv_bind Hl. injection Hl as <- <-.
  exists x. simpl. done.
Qed.

(** X1. The statements of the vectorization cell above the loops raise no
    exception other than [ValueError], and they raise it exactly when no
    line is loaded or some loaded line does not have exactly three
    tab-separated fields. *)
Theorem load_phase_errors (data : text) :
  (forall e, load_phase data = Raise e -> e = ValueError)
  /\ (load_phase data = Raise ValueError <->
      loaded_lines data = []
      \/ Exists (fun line => length (split TAB line) <> 3)
           (loaded_lines data)).
Proof.
  unfold load_phase.
  destruct (read_lines_result (loaded_lines data) (Corpus [] [] ∅ ∅))
    as [[Hall [cp Hcp]]|[Hex Hraise]].
  - rewrite Hcp. cbn [bind].
    pose proof (read_lines_texts _ _ _ Hcp) as [Hin Htgt]. simpl in Hin, Htgt.
    rewrite Hin, Htgt.
    destruct (loaded_lines data) as [|line lines] eqn:Hlines.
    + simpl. split; [by intros e [= <-]|]. split; [by left | done].
    + simpl. split; [discriminate|]. split; [discriminate|].
      intros [?|Hex]; [discriminate|]. exfalso.
      apply Exists_exists in Hex as (l & Hl & Hne).
      apply Hne. by apply (proj1 (Forall_forall _ _) Hall l Hl).
  - rewrite Hraise. simpl. split; [by intros e [= <-]|].
    split; [by right | done].
Qed.

(** X2. The texts are read in the order of the lines: sample [i] has the
    first field of loaded line [i] as its input text and the second field,
    between the start character TAB and the end character NL, as its target
    text; the third field is dropped. *)
Theorem load_phase_texts (data : text) (g : tables) (a : arrays) :
  load_phase data = Ok (g, a) ->
  length (input_texts g) = length (loaded_lines data)
  /\ length (target_texts g) = length (loaded_lines data)
  /\ forall i line,
       loaded_lines data !! i = Some line ->
       exists input_text target_text attribution,
         split TAB line = [input_text; target_text; attribution]
         /\ input_texts g !! i = Some input_text
         /\ target_texts g !! i = Some ([TAB] ++ target_text ++ [NL]).
Proof.
  intros Hload.
  apply load_phase_inv in Hload as (cp & Hcp & -> & -> & _).
  pose proof (read_lines_texts _ _ _ Hcp) as [Hin Htgt]. simpl in Hin, Htgt.
  rewrite Hin, Htgt, !length_fmap. split; [done|]. split; [done|].
  intros i line Hline. rewrite !list_lookup_fmap, Hline. simpl.
  destruct (read_lines_result (loaded_lines data) (Corpus [] [] ∅ ∅))
    as [[Hall _]|[_ Hraise]]; [|congruence].
  pose proof (proj1 (Forall_lookup _ _) Hall i line Hline) as Hlen.
  cbv beta in Hlen.
  destruct (split TAB line) as [|f1 [|f2 [|f3 [|f4 fs]]]];
    try discriminate Hlen.
  exists f1, f2, f3. done.
Qed.

Lemma load_phase_texts_witness :
  load_phase sample_data = Ok (sample_tables, zero_arrays sample_tables)
  /\ input_texts sample_tables !! 1 = Some [98]%N
  /\ target_texts sample_tables !! 1 = Some [9; 101; 32; 102; 10]%N.
Proof.
  assert (load_phase sample_data
          = Ok (sample_tables, zero_arrays sample_tables)) as Hload
    by (vm_compute; reflexivity).
  split; [exact Hload|].
  destruct (load_phase_texts sample_data sample_tables
              (zero_arrays sample_tables) Hload) as (_ & _ & Htexts).
  destruct (Htexts 1 [98; 9; 101; 32; 102; 9; 121]%N)
    as (f1 & f2 & f3 & Hs & Hin & Htgt); [vm_compute; reflexivity|].
  vm_compute in Hs. injection Hs as <- <- <-.
  split; [exact Hin | exact Htgt].
Defined.

(** X3. The vocabularies hold exactly the characters of the texts, in
    strictly increasing order of code point, and the token indices follow
    that order; the start and end characters are always target tokens. *)
Theorem vocabulary_exact_sorted (data : text) (g : tables) (a : arrays) :
  load_phase data = Ok (g, a) ->
  (forall c, c ∈ input_characters g <->
             exists txt, txt ∈ input_texts g /\ c ∈ txt)
  /\ (forall c, c ∈ target_characters g <->
                exists txt, txt ∈ target_texts g /\ c ∈ txt)
  /\ StronglySorted N.lt (input_characters g)
  /\ StronglySorted N.lt (target_characters g)
  /\ TAB ∈ target_characters g /\ NL ∈ target_characters g
  /\ (forall c1 c2 k1 k2,
        input_token_index g !! c1 = Some k1 ->
        input_token_index g !! c2 = Some k2 ->
        k1 < k2 <-> (c1 < c2)%N)
  /\ (forall c1 c2 k1 k2,
        target_token_index g !! c1 = Some k1 ->
        target_token_index g !! c2 = Some k2 ->
        k1 < k2 <-> (c1 < c2)%N).
Proof.
  intros Hload.
  pose proof (load_phase_Ok _ _ _ Hload) as (Hwf & _ & Hn & _).
  apply load_phase_inv in Hload
    as (cp & Hcp & Hin & Htgt & Hic & Htc & Hmax & _).
  pose proof (read_lines_texts _ _ _ Hcp) as [Hin' Htgt'].
  simpl in Hin', Htgt'. rewrite <- Hin in Hin'. rewrite <- Htgt in Htgt'.
  assert (forall c, c ∈ input_characters g <->
                    exists txt, txt ∈ input_texts g /\ c ∈ txt) as Hexact_in.
  { intros c. rewrite Hic, elem_of_sorted.
    rewrite (proj1 (read_lines_characters _ _ _ c Hcp)). simpl.
    rewrite Hin'. split.
    - intros [Hc|(line & Hline & Hc)]; [by apply elem_of_empty in Hc|].
      eexists. split; [|exact Hc].
      by apply (list_elem_of_fmap_2
                  (fun line => default [] (split TAB line !! 0))).
    - intros (txt & Htxt & Hc). right.
      apply list_elem_of_fmap in Htxt as (line & -> & Hline). eauto. }
  assert (forall c, c ∈ target_characters g <->
                    exists txt, txt ∈ target_texts g /\ c ∈ txt) as Hexact_tgt.
  { intros c. rewrite Htc, elem_of_sorted.
    rewrite (proj2 (read_lines_characters _ _ _ c Hcp)). simpl.
    rewrite Htgt'. split.
    - intros [Hc|(line & Hline & Hc)]; [by apply elem_of_empty in Hc|].
      eexists. split; [|exact Hc].
      by apply (list_elem_of_fmap_2
                  (fun line => TAB :: default [] (split TAB line !! 1)
                                      ++ [NL])).
    - intros (txt & Htxt & Hc). right.
      apply list_elem_of_fmap in Htxt as (line & -> & Hline). eauto. }
  assert (exists txt, txt ∈ target_texts g) as [txt0 Htxt0].
  { apply py_max_Ok in Hmax as [Hne _].
    rewrite Htgt'. rewrite Hin' in Hne.
    destruct (loaded_lines data) as [|line lines]; [done|].
    eexists. by left. }
  destruct (proj1 (Forall_forall _ _) (wf_target_texts g Hwf) txt0 Htxt0)
    as (_ & _ & body & Hbody).
  split; [done|]. split; [done|].
  split; [rewrite Hic; apply sorted_strict|].
  split; [rewrite Htc; apply sorted_strict|].
  split.
  { apply Hexact_tgt. exists txt0. split; [done|]. rewrite Hbody. by left. }
  split.
  { apply Hexact_tgt. exists txt0. split; [done|]. rewrite Hbody.
    right. apply elem_of_app. right. by left. }
  split.
  - intros c1 c2 k1 k2. rewrite (wf_input_token_index g Hwf).
    rewrite !token_index_lookup by apply (wf_input_NoDup g Hwf).
    apply StronglySorted_lookup_lt. rewrite Hic. apply sorted_strict.
  - intros c1 c2 k1 k2. rewrite (wf_target_token_index g Hwf).
    rewrite !token_index_lookup by apply (wf_target_NoDup g Hwf).
    apply StronglySorted_lookup_lt. rewrite Htc. apply sorted_strict.
Qed.

Lemma vocabulary_exact_sorted_witness :
  load_phase sample_data = Ok (sample_tables, zero_arrays sample_tables)
  /\ TAB ∈ target_characters sample_tables
  /\ StronglySorted N.lt (input_characters sample_tables).
Proof.
  assert (load_phase sample_data
          = Ok (sample_tables, zero_arrays sample_tables)) as Hload
    by (vm_compute; reflexivity).
  split; [exact Hload|].
  destruct (vocabulary_exact_sorted sample_data sample_tables
              (zero_arrays sample_tables) Hload)
    as (_ & _ & Hsorted & _ & Htab & _).
  split; [exact Htab | exact Hsorted].
Defined.

(** X4. [max_encoder_seq_length] and [max_decoder_seq_length] are the
    lengths of a longest input text and of a longest target text: no text
    is longer and some text has that length; a target text has at least the
    start and the end character, so [max_decoder_seq_length] is at least
    2. *)
Theorem max_seq_lengths_attained (data : text) (g : tables) (a : arrays) :
  load_phase data = Ok (g, a) ->
  Forall (fun txt => length txt <= max_encoder_seq_length g) (input_texts g)
  /\ (exists txt, txt ∈ input_texts g
                  /\ length txt = max_encoder_seq_length g)
  /\ Forall (fun txt => length txt <= max_decoder_seq_length g)
       (target_texts g)
  /\ (exists txt, txt ∈ target_texts g
                  /\ length txt = max_decoder_seq_length g)
  /\ 2 <= max_decoder_seq_length g.
Proof.
  intros Hload.
  pose proof (load_phase_Ok _ _ _ Hload) as (Hwf & _ & _ & _).
  apply load_phase_inv in Hload as (cp & _ & _ & _ & _ & _ & Hm1 & Hm2).
  pose proof (py_max_attained _ _ Hm1) as Ha1.
  pose proof (py_max_attained _ _ Hm2) as Ha2.
  apply list_elem_of_fmap in Ha1 as (t1 & Hl1 & Ht1).
  apply list_elem_of_fmap in Ha2 as (t2 & Hl2 & Ht2).
  apply py_max_Ok in Hm1 as [_ Hm1], Hm2 as [_ Hm2].
  rewrite Forall_fmap in Hm1, Hm2.
  split; [exact Hm1|]. split; [by exists t1|].
  split; [exact Hm2|]. split; [by exists t2|].
  destruct (proj1 (Forall_forall _ _) (wf_target_texts g Hwf) t2 Ht2)
    as (_ & _ & body & Hbody).
  rewrite Hl2, Hbody. simpl. rewrite length_app. simpl. lia.
Qed.

Lemma max_seq_lengths_attained_witness :
  load_phase sample_data = Ok (sample_tables, zero_arrays sample_tables)
  /\ 2 <= max_decoder_seq_length sample_tables.
Proof.
  assert (load_phase sample_data
          = Ok (sample_tables, zero_arrays sample_tables)) as Hload
    by (vm_compute; reflexivity).
  split; [exact Hload|].
  destruct (max_seq_lengths_attained sample_data sample_tables
              (zero_arrays sample_tables) Hload) as (_ & _ & _ & _ & Hmax).
  exact Hmax.
Defined.

(** ** The filling loops at their edges *)

Section FillEdgeCases.
Variable g : tables.
Hypothesis Hwf : tables_wf g.

Abbreviation zero_row_enc := (replicate (num_encoder_tokens g) 0%Q).
Abbreviation zero_sample_enc :=
  (replicate (max_encoder_seq_length g)
     (replicate (num_encoder_tokens g) 0%Q)).
Abbreviation zero_sample_dec :=
  (replicate (max_decoder_seq_length g)
     (replicate (num_decoder_tokens g) 0%Q)).
Abbreviation space_row_enc :=
  (encode (input_token_index g) (num_encoder_tokens g) SPACE).

Lemma input_token_index_Some (c : char) (k : nat) :
  input_token_index g !! c = Some k ->
  c ∈ input_characters g /\ k < num_encoder_tokens g.
Proof.
  rewrite (wf_input_token_index g Hwf), (wf_num_encoder_tokens g Hwf).
  rewrite token_index_lookup by apply (wf_input_NoDup g Hwf).
  intros Hk. split; [by eapply list_elem_of_lookup_2|].
  by apply lookup_lt_Some in Hk.
Qed.

Lemma target_token_index_Some (c : char) (k : nat) :
  target_token_index g !! c = Some k ->
  c ∈ target_characters g /\ k < num_decoder_tokens g.
Proof.
  rewrite (wf_target_token_index g Hwf), (wf_num_decoder_tokens g Hwf).
  rewrite token_index_lookup by apply (wf_target_NoDup g Hwf).
  intros Hk. split; [by eapply list_elem_of_lookup_2|].
  by apply lookup_lt_Some in Hk.
Qed.

Lemma input_token_index_None (c : char) :
  c ∉ input_characters g -> input_token_index g !! c = None.
Proof.
  intros Hc. destruct (input_token_index g !! c) as [k|] eqn:Hk; [|done].
  by apply input_token_index_Some in Hk as [? _].
Qed.

Lemma target_token_index_None (c : char) :
  c ∉ target_characters g -> target_token_index g !! c = None.
Proof.
  intros Hc. destruct (target_token_index g !! c) as [k|] eqn:Hk; [|done].
  by apply target_token_index_Some in Hk as [? _].
Qed.

(** The first half of a pass on an empty input text: the padding reads
    the value [t] kept from the pass before. *)
Lemma fill_sample_input_stale (i t : nat) (st : fill_state) :
  var_t st = Some t ->
  SPACE ∈ input_characters g ->
  encoder_input_data (fill_arrays st) !! i = Some zero_sample_enc ->
  fill_sample_input g i [] st
  = Ok (FillState (Some t)
          (Arrays
             (<[i := replicate (Nat.min (t + 1) (max_encoder_seq_length g))
                       zero_row_enc
                     ++ replicate (max_encoder_seq_length g - (t + 1))
                          space_row_enc]>
                (encoder_input_data (fill_arrays st)))
             (decoder_input_data (fill_arrays st))
             (decoder_target_data (fill_arrays st)))).
Proof.
  intros Ht Hsp Henc.
  destruct (input_token_index_lookup g Hwf SPACE Hsp) as (k & Hk & Hlt).
  unfold fill_sample_input, enumerate.
  cbn [enumerate_from for_each bind]. rewrite Ht. cbn [read_var bind].
  unfold getitem. rewrite Hk. cbn [bind].
  unfold setslice3. rewrite Henc. rewrite decide_True.
  2:{ apply Forall_replicate. by rewrite length_replicate. }
  cbn [bind]. rewrite take_replicate, drop_replicate.
  by rewrite (pad_rows _ _ _ _ Hk).
Qed.

(** The first half of a pass raises [NameError] when the input text is
    empty and no earlier pass has bound [t]. *)
Lemma fill_sample_input_unbound (i : nat) (st : fill_state) :
  var_t st = None -> fill_sample_input g i [] st = Raise NameError.
Proof.
  intros Ht. unfold fill_sample_input, enumerate.
  cbn [enumerate_from for_each bind]. by rewrite Ht.
Qed.

(** The first half of a pass raises [KeyError] at the padding when the
    input text is not empty and no input text holds a space. *)
Lemma fill_sample_input_no_space (i : nat) (input_text : text)
    (st : fill_state) :
  input_text <> [] ->
  length input_text <= max_encoder_seq_length g ->
  Forall (fun c => c ∈ input_characters g) input_text ->
  SPACE ∉ input_characters g ->
  encoder_input_data (fill_arrays st) !! i = Some zero_sample_enc ->
  fill_sample_input g i input_text st = Raise KeyError.
Proof.
  intros Hne Hlen Hchars Hsp Henc. unfold fill_sample_input, enumerate.
  pose proof (fill_input_chars g Hwf i input_text []
                (max_encoder_seq_length g - length input_text) st Hchars)
    as Hloop.
  cbn [length app] in Hloop. rewrite Hloop.
  - cbn [bind var_t]. destruct input_text; [done|]. cbn [read_var bind].
    unfold getitem. by rewrite (input_token_index_None _ Hsp).
  - rewrite Henc. do 2 f_equal. lia.
Qed.

(** The outer loop from sample [length enc_done] on, with the samples
    before it filled: it completes, the sample of a text that is not empty
    is encoded, and the sample of an empty text is padded from the timestep
    after the last character of the target text before it. *)
Lemma fill_samples_any (inputs targets : list text)
    (enc_done dec_done tgt_done : list matrix) (st : fill_state) (t0 : nat) :
  length inputs = length targets ->
  Forall (fun txt => length txt <= max_encoder_seq_length g
                     /\ Forall (fun c => c ∈ input_characters g) txt)
    inputs ->
  Forall (fun txt => txt <> [] /\ length txt <= max_decoder_seq_length g
                     /\ Forall (fun c => c ∈ target_characters g) txt)
    targets ->
  SPACE ∈ input_characters g -> SPACE ∈ target_characters g ->
  length dec_done = length enc_done ->
  length tgt_done = length enc_done ->
  encoder_input_data (fill_arrays st)
    = enc_done ++ replicate (length inputs) zero_sample_enc ->
  decoder_input_data (fill_arrays st)
    = dec_done ++ replicate (length inputs) zero_sample_dec ->
  decoder_target_data (fill_arrays st)
    = tgt_done ++ replicate (length inputs) zero_sample_dec ->
  (head inputs = Some [] -> var_t st = Some t0) ->
  exists t enc_new,
    for_each (fill_sample g)
      (enumerate_from (length enc_done) (zip inputs targets)) st
    = Ok (FillState t
            (Arrays
               (enc_done ++ enc_new)
               (dec_done
                ++ (encode_text (target_token_index g) (num_decoder_tokens g)
                      (max_decoder_seq_length g) <$> targets))
               (tgt_done
                ++ ((fun txt =>
                       encode_text (target_token_index g)
                         (num_decoder_tokens g)
                         (max_decoder_seq_length g) (tail txt))
                      <$> targets))))
    /\ length enc_new = length inputs
    /\ forall j txt,
         inputs !! j = Some txt ->
         enc_new !! j
         = Some match txt with
                | [] =>
                    let t := match j with
                             | 0 => t0
                             | S j' => length (default [] (targets !! j')) - 1
                             end in
                    replicate (Nat.min (t + 1) (max_encoder_seq_length g))
                      zero_row_enc
                    ++ replicate (max_encoder_seq_length g - (t + 1))
                         space_row_enc
                | _ => encode_text (input_token_index g)
                         (num_encoder_tokens g)
                         (max_encoder_seq_length g) txt
                end.
Proof.
  revert targets enc_done dec_done tgt_done st t0.
  induction inputs as [|input_text inputs IH];
    intros [|target_text targets] enc_done dec_done tgt_done st t0
           Hlen Hin Htgt Hsp_in Hsp_tgt Hdec_len Htgt_len Henc Hdec Htg Ht0;
    try discriminate.
  - exists (var_t st), []. simpl in *. rewrite !app_nil_r in *.
    rewrite <- Henc, <- Hdec, <- Htg. by rewrite fill_state_eta.
  - apply Forall_cons in Hin as [(Hin_len & Hin_chars) Hin].
    apply Forall_cons in Htgt as [(Htgt_ne & Htgt_le & Htgt_chars) Htgt].
    destruct (target_token_index_lookup g Hwf SPACE Hsp_tgt)
      as (kt & Hkt & _).
    cbn [zip zip_with enumerate_from for_each].
    cbn [length replicate] in Henc, Hdec, Htg.
    set (row := match input_text with
                | [] =>
                    replicate (Nat.min (t0 + 1) (max_encoder_seq_length g))
                      zero_row_enc
                    ++ replicate (max_encoder_seq_length g - (t0 + 1))
                         space_row_enc
                | _ => encode_text (input_token_index g)
                         (num_encoder_tokens g)
                         (max_encoder_seq_length g) input_text
                end).
    assert (fill_sample g st (length enc_done, (input_text, target_text))
            = Ok (FillState (Some (length target_text - 1))
                    (Arrays
                       (<[length enc_done := row]>
                          (encoder_input_data (fill_arrays st)))
                       (<[length enc_done :=
                            encode_text (target_token_index g)
                              (num_decoder_tokens g)
                              (max_decoder_seq_length g) target_text]>
                          (decoder_input_data (fill_arrays st)))
                       (<[length enc_done :=
                            encode_text (target_token_index g)
                              (num_decoder_tokens g)
                              (max_decoder_seq_length g)
                              (tail target_text)]>
                          (decoder_target_data (fill_arrays st))))))
      as Hpass.
    { assert (encoder_input_data (fill_arrays st) !! length enc_done
              = Some zero_sample_enc) as Henc_i
        by (rewrite Henc; by apply list_lookup_middle).
      assert (decoder_input_data (fill_arrays st) !! length enc_done
              = Some zero_sample_dec) as Hdec_i
        by (rewrite Hdec; by apply list_lookup_middle).
      assert (decoder_target_data (fill_arrays st) !! length enc_done
              = Some zero_sample_dec) as Htg_i
        by (rewrite Htg; by apply list_lookup_middle).
      destruct input_text as [|c input_text].
      - unfold fill_sample.
        rewrite (fill_sample_input_stale _ t0) by (by auto).
        cbn [bind].
        rewrite (fill_sample_target_eq g Hwf) by done.
        by rewrite Hkt.
      - by rewrite (fill_sample_Ok g Hwf). }
    rewrite Hpass. cbn [bind]. clear Hpass.
    set (st1 := FillState _ _).
    destruct (IH targets
                (enc_done ++ [row])
                (dec_done ++ [encode_text (target_token_index g)
                                (num_decoder_tokens g)
                                (max_decoder_seq_length g) target_text])
                (tgt_done ++ [encode_text (target_token_index g)
                                (num_decoder_tokens g)
                                (max_decoder_seq_length g)
                                (tail target_text)])
                st1 (length target_text - 1))
      as (t & enc_new & Hloop & Hlen_new & Hrows); try done.
    + by injection Hlen.
    + rewrite !length_app. simpl. lia.
    + rewrite !length_app. simpl. lia.
    + unfold st1. cbn [fill_arrays encoder_input_data]. rewrite Henc.
      rewrite insert_app_r_alt, Nat.sub_diag by done.
      by rewrite <- app_assoc.
    + unfold st1. cbn [fill_arrays decoder_input_data]. rewrite Hdec.
      rewrite insert_app_r_alt, Hdec_len, Nat.sub_diag by lia.
      by rewrite <- app_assoc.
    + unfold st1. cbn [fill_arrays decoder_target_data]. rewrite Htg.
      rewrite insert_app_r_alt, Htgt_len, Nat.sub_diag by lia.
      by rewrite <- app_assoc.
    + exists t, (row :: enc_new).
      rewrite length_app, Nat.add_1_r in Hloop. rewrite Hloop.
      rewrite !fmap_cons. rewrite <- !app_assoc.
      split; [done|]. split; [simpl; lia|].
      intros [|j] txt Hj.
      * injection Hj as <-. done.
      * specialize (Hrows j txt Hj).
        change ((row :: enc_new) !! S j) with (enc_new !! j).
        rewrite Hrows. destruct txt as [|c txt]; [|done].
        destruct j as [|j]; done.
Qed.

(** What the filling loops do on freshly allocated arrays, case by
    case. *)
Lemma fill_phase_cases :
  match input_texts g with
  | [] => fill_phase g (zero_arrays g) = Ok (zero_arrays g)
  | [] :: _ => fill_phase g (zero_arrays g) = Raise NameError
  | _ :: _ =>
      if decide (SPACE ∈ input_characters g /\ SPACE ∈ target_characters g)
      then exists a', fill_phase g (zero_arrays g) = Ok a'
      else fill_phase g (zero_arrays g) = Raise KeyError
  end.
Proof.
  pose proof (wf_samples g Hwf) as Hlen.
  pose proof (wf_input_texts g Hwf) as Hin.
  pose proof (wf_target_texts g Hwf) as Htgt.
  destruct (input_texts g) as [|input_text inputs] eqn:Hinputs.
  { unfold fill_phase. by rewrite Hinputs. }
  destruct input_text as [|c input_text].
  { unfold fill_phase, enumerate. rewrite Hinputs.
    destruct (target_texts g) as [|target_text targets]; [done|].
    cbn [zip zip_with enumerate_from for_each]. unfold fill_sample.
    by rewrite fill_sample_input_unbound. }
  destruct (decide (SPACE ∈ input_characters g
                    /\ SPACE ∈ target_characters g)) as [[Hsp_in Hsp_tgt]|Hno].
  - destruct (fill_samples_any (input_texts g) (target_texts g) [] [] []
                (FillState None (zero_arrays g)) 0)
      as (t & enc_new & Hloop & _); try done.
    + by rewrite Hinputs.
    + rewrite Hinputs. done.
    + eapply Forall_impl; [apply Htgt|].
      intros txt (Hl & Hc & body & ->). done.
    + by rewrite Hinputs.
    + cbn [length] in Hloop. unfold fill_phase, enumerate.
      rewrite Hinputs in Hloop. rewrite Hinputs, Hloop. eauto.
  - unfold fill_phase, enumerate. rewrite Hinputs.
    destruct (target_texts g) as [|target_text targets]; [done|].
    apply Forall_cons in Hin as [(Hin_len & Hin_chars) _].
    apply Forall_cons in Htgt as [(Htgt_len & Htgt_chars & body & ->) _].
    cbn [zip zip_with enumerate_from for_each]. unfold fill_sample.
    assert (encoder_input_data (zero_arrays g) !! 0 = Some zero_sample_enc)
      as Henc by (unfold zero_arrays; by rewrite Hinputs).
    destruct (decide (SPACE ∈ input_characters g)) as [Hsp_in|Hsp_in].
    + rewrite (fill_sample_input_Ok g Hwf) by done. cbn [bind].
      rewrite (fill_sample_target_eq g Hwf); try done.
      * rewrite target_token_index_None; [done|]. tauto.
      * cbn [fill_arrays decoder_input_data]. unfold zero_arrays.
        by rewrite Hinputs.
      * cbn [fill_arrays decoder_target_data]. unfold zero_arrays.
        by rewrite Hinputs.
    + by rewrite fill_sample_input_no_space.
Qed.
(** A completed run of the filling loops on freshly allocated arrays, in
    closed form. *)
Lemma fill_phase_Ok_closed (a' : arrays) :
  input_texts g <> [] ->
  fill_phase g (zero_arrays g) = Ok a' ->
  (head (input_texts g) <> Some []
   /\ SPACE ∈ input_characters g /\ SPACE ∈ target_characters g)
  /\ length (encoder_input_data a') = length (input_texts g)
  /\ decoder_input_data a' = decoder_input_data (filled_arrays g)
  /\ decoder_target_data a' = decoder_target_data (filled_arrays g)
  /\ forall i txt,
       input_texts g !! i = Some txt ->
       encoder_input_data a' !! i
       = Some match txt with
              | [] =>
                  let prev := default [] (target_texts g !! (i - 1)) in
                  replicate
                    (Nat.min (length prev) (max_encoder_seq_length g))
                    zero_row_enc
                  ++ replicate (max_encoder_seq_length g - length prev)
                       space_row_enc
              | _ => encode_text (input_token_index g)
                       (num_encoder_tokens g)
                       (max_encoder_seq_length g) txt
              end.
Proof.
  intros Hne Hfill.
  pose proof (wf_target_texts g Hwf) as Htgt.
  assert (head (input_texts g) <> Some []
          /\ SPACE ∈ input_characters g /\ SPACE ∈ target_characters g)
    as (Hhead & Hsp_in & Hsp_tgt).
  { pose proof fill_phase_cases as Hcases.
    destruct (input_texts g) as [|[|c input_text] inputs]; [done| |].
    - congruence.
    - destruct (decide (SPACE ∈ input_characters g
                        /\ SPACE ∈ target_characters g)) as [[? ?]|?];
        [done | congruence]. }
  split; [done|].
  destruct (fill_samples_any (input_texts g) (target_texts g) [] [] []
              (FillState None (zero_arrays g)) 0)
    as (t & enc_new & Hloop & Hlen_new & Hrows); try done.
  - apply (wf_samples g Hwf).
  - apply (wf_input_texts g Hwf).
  - eapply Forall_impl; [apply Htgt|].
    intros txt (Hl & Hc & body & ->). done.
  - unfold fill_phase, enumerate in Hfill. cbn [length] in Hloop.
    rewrite Hloop in Hfill. cbn [bind fill_arrays] in Hfill.
    injection Hfill as <-.
    cbn [encoder_input_data decoder_input_data decoder_target_data app].
    split; [done|]. split; [done|]. split; [done|].
    intros i txt Hi. rewrite (Hrows i txt Hi).
    destruct txt as [|c txt]; [|done].
    destruct i as [|j]; [by destruct (input_texts g)|].
    assert (is_Some (target_texts g !! j)) as [prev Hprev].
    { apply lookup_lt_is_Some. apply lookup_lt_Some in Hi.
      rewrite <- (wf_samples g Hwf). lia. }
    cbv beta iota zeta. rewrite Nat.sub_succ, Nat.sub_0_r, Hprev.
    cbn [from_option id].
    destruct (proj1 (Forall_lookup _ _) Htgt j prev Hprev)
      as (_ & _ & body & Hbody).
    by replace (length prev - 1 + 1) with (length prev)
      by (rewrite Hbody; simpl; lia).
Qed.
End FillEdgeCases.

Lemma load_phase_samples (data : text) (g : tables) (a : arrays) :
  load_phase data = Ok (g, a) ->
  input_texts g <> [] /\ target_texts g <> [].
Proof.
  intros Hload.
  pose proof (load_phase_Ok _ _ _ Hload) as (Hwf & _).
  apply load_phase_inv in Hload as (_ & _ & _ & _ & _ & _ & Hmax & _).
  apply py_max_Ok in Hmax as [Hne _].
  pose proof (wf_samples g Hwf) as Hlen.
  destruct (input_texts g); [done|]. by destruct (target_texts g).
Qed.

(** X5. On the arrays the cell allocates, the filling loops raise
    [NameError] exactly when the first input text is empty ([t] is read
    before any pass of an inner loop has bound it), raise [KeyError]
    exactly when the first input text is not empty and the space character
    is missing from the input or from the target characters, and complete
    in every other case; they raise nothing else. *)
Theorem fill_phase_errors (data : text) (g : tables) (a : arrays) :
  load_phase data = Ok (g, a) ->
  (fill_phase g a = Raise NameError <-> head (input_texts g) = Some [])
  /\ (fill_phase g a = Raise KeyError <->
      head (input_texts g) <> Some []
      /\ ~ (SPACE ∈ input_characters g /\ SPACE ∈ target_characters g))
  /\ ((exists a', fill_phase g a = Ok a') <->
      head (input_texts g) <> Some []
      /\ SPACE ∈ input_characters g /\ SPACE ∈ target_characters g)
  /\ (forall e, fill_phase g a = Raise e -> e = NameError \/ e = KeyError).
Proof.
  intros Hload.
  pose proof (load_phase_Ok _ _ _ Hload) as (Hwf & -> & _).
  apply load_phase_inv in Hload as (_ & _ & _ & _ & _ & _ & Hmax & _).
  apply py_max_Ok in Hmax as [Hne _].
  pose proof (fill_phase_cases g Hwf) as Hcases.
  destruct (input_texts g) as [|[|c input_text] inputs]; [done| |].
  - rewrite Hcases. cbn [head].
    split; [done|]. split; [split; [discriminate | by intros [? _]]|].
    split; [split; [by intros [? ?] | by intros [? _]]|].
    intros e [= <-]. by left.
  - cbn [head].
    destruct (decide (SPACE ∈ input_characters g
                      /\ SPACE ∈ target_characters g)) as [Hsp|Hsp].
    + destruct Hcases as [a' Ha']. rewrite Ha'.
      split; [split; discriminate|].
      split; [split; [discriminate | by intros [_ ?]]|].
      split; [split; [done | by eauto]|]. discriminate.
    + rewrite Hcases.
      split; [split; discriminate|]. split; [done|].
      split; [split; [by intros [? ?] | by intros [_ ?]]|].
      intros e [= <-]. by right.
Qed.

Lemma fill_phase_errors_witness :
  load_phase sample_data = Ok (sample_tables, zero_arrays sample_tables)
  /\ exists a', fill_phase sample_tables (zero_arrays sample_tables) = Ok a'.
Proof.
  assert (load_phase sample_data
          = Ok (sample_tables, zero_arrays sample_tables)) as Hload
    by (vm_compute; reflexivity).
  split; [exact Hload|].
  destruct (fill_phase_errors sample_data sample_tables
              (zero_arrays sample_tables) Hload) as (_ & _ & Hok & _).
  apply Hok. vm_compute.
  split; [discriminate|]. split.
  - apply list_elem_of_lookup. by exists 0.
  - apply list_elem_of_lookup. by exists 2.
Defined.

(** X6. Whenever the filling loops complete, the sample of an input text
    that is not empty holds the rows of its characters followed by rows of
    the space character.  An empty input text after the first does not
    stop the loops: the padding starts after the value [t] kept from the
    target text of the sample before, so the sample keeps rows of zeros up
    to the length of that target text and has rows of the space character
    after them. *)
Theorem fill_phase_encoder_rows (data : text) (g : tables) (a a' : arrays) :
  load_phase data = Ok (g, a) ->
  fill_phase g a = Ok a' ->
  (forall i txt,
     input_texts g !! i = Some txt -> txt <> [] ->
     encoder_input_data a' !! i
     = Some (encode_text (input_token_index g) (num_encoder_tokens g)
               (max_encoder_seq_length g) txt))
  /\ (forall i,
        input_texts g !! i = Some [] ->
        exists j prev,
          i = S j /\ target_texts g !! j = Some prev
          /\ encoder_input_data a' !! i
             = Some (replicate
                       (Nat.min (length prev) (max_encoder_seq_length g))
                       (replicate (num_encoder_tokens g) 0%Q)
                     ++ replicate (max_encoder_seq_length g - length prev)
                          (encode (input_token_index g)
                             (num_encoder_tokens g) SPACE))).
Proof.
  intros Hload Hfill.
  pose proof (load_phase_Ok _ _ _ Hload) as (Hwf & -> & _).
  apply load_phase_samples in Hload as [Hne _].
  destruct (fill_phase_Ok_closed g Hwf a' Hne Hfill)
    as ((Hhead & _) & _ & _ & _ & Hrows).
  split.
  - intros i txt Hi Htxt. rewrite (Hrows i txt Hi). by destruct txt.
  - intros [|j] Hi; [by destruct (input_texts g)|].
    assert (is_Some (target_texts g !! j)) as [prev Hprev].
    { apply lookup_lt_is_Some. apply lookup_lt_Some in Hi.
      rewrite <- (wf_samples g Hwf). lia. }
    exists j, prev. split; [done|]. split; [done|].
    rewrite (Hrows (S j) [] Hi). cbv beta iota zeta.
    by rewrite Nat.sub_succ, Nat.sub_0_r, Hprev.
Qed.

Lemma fill_phase_encoder_rows_witness :
  load_phase stale_data = Ok (stale_tables, zero_arrays stale_tables)
  /\ fill_phase stale_tables (zero_arrays stale_tables) = Ok stale_arrays
  /\ input_texts stale_tables !! 1 = Some []
  /\ encoder_input_data stale_arrays !! 1
     = Some (replicate 3 (replicate 3 0%Q)).
Proof.
  assert (load_phase stale_data
          = Ok (stale_tables, zero_arrays stale_tables)) as Hload
    by (vm_compute; reflexivity).
  assert (fill_phase stale_tables (zero_arrays stale_tables)
          = Ok stale_arrays) as Hfill
    by (vm_compute; reflexivity).
  assert (input_texts stale_tables !! 1 = Some []) as Hempty
    by (vm_compute; reflexivity).
  split; [exact Hload|]. split; [exact Hfill|]. split; [exact Hempty|].
  destruct (fill_phase_encoder_rows stale_data stale_tables
              (zero_arrays stale_tables) stale_arrays Hload Hfill)
    as [_ Hstale].
  destruct (Hstale 1 Hempty) as (j & prev & Hj & Hprev & Hrow).
  injection Hj as <-. vm_compute in Hprev. injection Hprev as <-.
  rewrite Hrow. vm_compute. reflexivity.
Defined.

(** ** The start and end characters *)

(** A field of [s.split(sep)] holds characters of [s] other than the
    separator. *)
Lemma split_fields (sep : char) (s : text) :
  split sep s <> []
  /\ Forall (fun field => (sep ∉ field) /\ forall c, c ∈ field -> c ∈ s)
       (split sep s).
Proof.
  induction s as [|c s [IHne IH]]; simpl.
  - split; [done|]. apply Forall_singleton.
    split; [apply not_elem_of_nil|]. by intros c ?%elem_of_nil.
  - destruct (c =? sep)%N eqn:Hc.
    + split; [done|]. apply Forall_cons. split.
      * split; [apply not_elem_of_nil|]. by intros c' ?%elem_of_nil.
      * eapply Forall_impl; [exact IH|]. simpl.
        intros field [Hsep Hsub]. split; [done|].
        intros c' Hc'. right. by apply Hsub.
    + apply N.eqb_neq in Hc.
      destruct (split sep s) as [|field fields]; [done|].
      split; [done|].
      apply Forall_cons in IH as [[Hsep Hsub] IH].
      apply Forall_cons. split.
      * split.
        -- rewrite elem_of_cons. intros [?|?]; [congruence | done].
        -- intros c'. rewrite !elem_of_cons. intros [?|?]; [by left|].
           right. by apply Hsub.
      * eapply Forall_impl; [exact IH|]. simpl.
        intros f [Hsep' Hsub']. split; [done|].
        intros c' Hc'. right. by apply Hsub'.
Qed.

(** [s.split(sep)] has one more field than [s] has separators. *)
Lemma split_length (sep : char) (s : text) :
  length (split sep s) = S (length (filter (fun c => c = sep) s)).
Proof.
  induction s as [|c s IH]; [done|]. simpl.
  destruct (c =? sep)%N eqn:Hc.
  - apply N.eqb_eq in Hc. rewrite filter_cons_True by done.
    simpl. by rewrite IH.
  - apply N.eqb_neq in Hc. rewrite filter_cons_False by done.
    destruct (split sep s); [done|]. by rewrite <- IH.
Qed.

Lemma loaded_lines_fields (data : text) (line : text) :
  line ∈ loaded_lines data ->
  Forall (fun field => (TAB ∉ field) /\ (NL ∉ field)) (split TAB line).
Proof.
  unfold loaded_lines. intros Hline.
  apply elem_of_take in Hline as (i & Hline & _).
  apply list_elem_of_lookup_2 in Hline.
  destruct (split_fields NL data) as [_ Hlines].
  destruct (proj1 (Forall_forall _ _) Hlines line Hline) as [Hnl _].
  destruct (split_fields TAB line) as [_ Hfields].
  eapply Forall_impl; [exact Hfields|]. simpl.
  intros field [Htab Hsub]. split; [done|]. intros Hc. by apply Hnl, Hsub.
Qed.

(** X7. The start character TAB and the end character NL mark the two
    ends of every target text and occur nowhere else: not inside a target
    text and not in an input text, because the texts are fields of lines
    that were split at NL and then at TAB. *)
Theorem start_end_characters (data : text) (g : tables) (a : arrays) :
  load_phase data = Ok (g, a) ->
  Forall (fun txt => (TAB ∉ txt) /\ (NL ∉ txt)) (input_texts g)
  /\ Forall (fun txt => exists body,
               txt = [TAB] ++ body ++ [NL]
               /\ (TAB ∉ body) /\ (NL ∉ body))
       (target_texts g).
Proof.
  intros Hload.
  apply load_phase_inv in Hload as (cp & Hcp & -> & -> & _).
  pose proof (read_lines_texts _ _ _ Hcp) as [-> ->]. simpl.
  split.
  - apply Forall_fmap, Forall_forall. intros line Hline. simpl.
    pose proof (loaded_lines_fields data line Hline) as Hfields.
    destruct (split TAB line !! 0) as [field|] eqn:Hfield; simpl.
    + by apply (proj1 (Forall_lookup _ _) Hfields 0 field).
    + split; apply not_elem_of_nil.
  - apply Forall_fmap, Forall_forall. intros line Hline. simpl.
    pose proof (loaded_lines_fields data line Hline) as Hfields.
    eexists. split; [reflexivity|].
    destruct (split TAB line !! 1) as [field|] eqn:Hfield; simpl.
    + by apply (proj1 (Forall_lookup _ _) Hfields 1 field).
    + split; apply not_elem_of_nil.
Qed.

Lemma start_end_characters_witness :
  load_phase sample_data = Ok (sample_tables, zero_arrays sample_tables)
  /\ Forall (fun txt => (TAB ∉ txt) /\ (NL ∉ txt)) (input_texts sample_tables).
Proof.
  assert (load_phase sample_data
          = Ok (sample_tables, zero_arrays sample_tables)) as Hload
    by (vm_compute; reflexivity).
  split; [exact Hload|].
  destruct (start_end_characters sample_data sample_tables
              (zero_arrays sample_tables) Hload) as [Hin _].
  exact Hin.
Defined.

(** ** Reading the arrays back *)






(** ** [decode_sequence] on the tables of the vectorization cell *)

Section InferenceOnTables.
Variable decoder_model_predict :
  tensor -> state_vector * state_vector -> tensor * state_vector * state_vector.
Variable g : tables.
Hypothesis Hwf : tables_wf g.

(** The decoder answers with an array whose last timestep holds one score
    for each target token. *)
Hypothesis Hscores :
  forall target_seq states,
    exists scores,
      item_0_last (decoder_model_predict target_seq states).1.1 = Ok scores
      /\ length scores = num_decoder_tokens g.
Hypothesis Hstart : TAB ∈ target_characters g.

Lemma loop_body_completes (st : loop_state) :
  exists st' c,
    loop_body decoder_model_predict g st = Ok st'
    /\ c ∈ target_characters g
    /\ decoded_sentence st' = decoded_sentence st ++ [c].
Proof.
  unfold loop_body.
  destruct (Hscores (target_seq st) (states_value st))
    as (scores & Hlast & Hlen).
  destruct (decoder_model_predict _ _) as [[output_tokens h] c].
  simpl in Hlast. rewrite Hlast. cbn [bind].
  destruct (target_token_index_lookup g Hwf TAB Hstart) as (k0 & _ & Hk0).
  destruct (np_argmax scores) as [k|e] eqn:Hk.
  2:{ destruct scores; [simpl in Hlen; lia | discriminate]. }
  cbn [bind].
  apply np_argmax_first_maximum, first_maximum_lt in Hk.
  rewrite Hlen in Hk.
  assert (is_Some (target_characters g !! k)) as [ch Hch].
  { apply lookup_lt_is_Some. by rewrite <- (wf_num_decoder_tokens g Hwf). }
  assert (reverse_target_char_index g !! k = Some ch) as Hrev.
  { unfold reverse_target_char_index.
    rewrite (wf_target_token_index g Hwf).
    by apply reverse_token_index_lookup; [apply (wf_target_NoDup g Hwf)|]. }
  unfold getitem. rewrite Hrev. cbn [bind].
  unfold setitem3, np_zeros3. cbn [replicate lookup list_lookup].
  rewrite decide_True by (by rewrite length_replicate).
  cbn [bind]. eexists _, ch. split; [reflexivity|].
  split; [by eapply list_elem_of_lookup_2 | done].
Qed.

Lemma sampling_loop_completes (fuel iters n : nat) (st : loop_state)
    (r : result loop_state) :
  Forall (fun c => c ∈ target_characters g) (decoded_sentence st) ->
  sampling_loop decoder_model_predict g fuel iters st = Some (r, n) ->
  exists st',
    r = Ok st'
    /\ Forall (fun c => c ∈ target_characters g) (decoded_sentence st').
Proof.
  revert iters st. induction fuel as [|fuel IH]; intros iters st Hchars; simpl.
  - destruct (stop_condition st); [|discriminate]. intros [= <- _]. eauto.
  - destruct (stop_condition st); [intros [= <- _]; by eauto|].
    destruct (loop_body_completes st) as (st1 & c & -> & Hc & Hs).
    apply IH. rewrite Hs. apply Forall_app. split; [done|].
    by apply Forall_singleton.
Qed.

Lemma decode_sequence_completes
    (encoder_model_predict : tensor -> state_vector * state_vector)
    (input_seq : tensor) :
  exists s n,
    decode_sequence encoder_model_predict decoder_model_predict g
      (max_decoder_seq_length g + 1) input_seq = Some (Ok s, n)
    /\ Forall (fun c => c ∈ target_characters g) s.
Proof.
  unfold decode_sequence.
  destruct (decode_init encoder_model_predict g input_seq) as [st|e] eqn:Hi.
  - apply decode_init_sentence_inv in Hi as [Hinv Hnil].
    destruct (sampling_loop_terminates decoder_model_predict g
                (max_decoder_seq_length g + 1) 0 st)
      as (r & n & Hloop & Hn); [done | by rewrite Hnil | lia |].
    rewrite Hloop.
    apply sampling_loop_completes in Hloop as (st' & -> & Hchars);
      [|by rewrite Hnil].
    eauto.
  - exfalso. unfold decode_init in Hi.
    destruct (target_token_index_lookup g Hwf TAB Hstart) as (k & Hk & Hlt).
    unfold getitem in Hi. rewrite Hk in Hi. cbn [bind] in Hi.
    unfold setitem3, np_zeros3 in Hi.
    cbn [replicate lookup list_lookup] in Hi.
    rewrite decide_True in Hi by (by rewrite length_replicate).
    discriminate.
Qed.
End InferenceOnTables.

Lemma load_phase_start_end (data : text) (g : tables) (a : arrays) :
  load_phase data = Ok (g, a) ->
  TAB ∈ target_characters g /\ NL ∈ target_characters g.
Proof.
  intros Hload.
  pose proof (load_phase_Ok _ _ _ Hload) as (Hwf & _).
  apply load_phase_samples in Hload as [_ Hne].
  pose proof (wf_target_texts g Hwf) as Htgt.
  destruct (target_texts g) as [|txt txts]; [done|].
  apply Forall_cons in Htgt as [(_ & Hchars & body & ->) _].
  apply Forall_cons in Hchars as [Htab Hchars].
  apply Forall_app in Hchars as [_ Hnl].
  apply Forall_inv in Hnl. by split.
Qed.

(** X9. On the tables the vectorization cell builds, [decode_sequence]
    raises no exception whenever the decoder answers with one score for
    each target token: the start character is in [target_token_index],
    every sampled index is a key of [reverse_target_char_index] and a valid
    position of the next target sequence.  It returns a sentence made of
    target characters. *)
Theorem decode_sequence_never_raises
    (encoder_model_predict : tensor -> state_vector * state_vector)
    (decoder_model_predict :
       tensor -> state_vector * state_vector ->
       tensor * state_vector * state_vector)
    (data : text) (g : tables) (a : arrays) (input_seq : tensor) :
  load_phase data = Ok (g, a) ->
  (forall target_seq states,
     exists scores,
       item_0_last (decoder_model_predict target_seq states).1.1 = Ok scores
       /\ length scores = num_decoder_tokens g) ->
  exists s n,
    decode_sequence encoder_model_predict decoder_model_predict g
      (max_decoder_seq_length g + 1) input_seq = Some (Ok s, n)
    /\ Forall (fun c => c ∈ target_characters g) s.
Proof.
  intros Hload Hscores.
  pose proof (load_phase_Ok _ _ _ Hload) as (Hwf & _).
  apply load_phase_start_end in Hload as [Hstart _].
  by apply decode_sequence_completes.
Qed.

Lemma decode_sequence_never_raises_witness :
  load_phase sample_data = Ok (sample_tables, zero_arrays sample_tables)
  /\ exists s n,
       decode_sequence toy_encoder (toy_decoder next_cd) sample_tables
         (max_decoder_seq_length sample_tables + 1) [] = Some (Ok s, n)
       /\ Forall (fun c => c ∈ target_characters sample_tables) s.
Proof.
  assert (load_phase sample_data
          = Ok (sample_tables, zero_arrays sample_tables)) as Hload
    by (vm_compute; reflexivity).
  split; [exact Hload|].
  apply (decode_sequence_never_raises toy_encoder (toy_decoder next_cd)
           sample_data sample_tables (zero_arrays sample_tables) [] Hload).
  intros target_seq states. eexists. split; [reflexivity|].
  rewrite one_hot_length. vm_compute. reflexivity.
Defined.

(** ** Shape of the arrays handed to [model.fit] *)

Lemma encode_one_hot_or_zero (index : gmap N nat) (n : nat) (c : char) :
  (forall c k, index !! c = Some k -> k < n) ->
  one_hot_or_zero n (encode index n c).
Proof.
  intros Hindex. unfold encode.
  destruct (index !! c) as [k|] eqn:Hk; simpl.
  - right. exists k. split; [by apply (Hindex c)|done].
  - destruct n as [|n]; [by left|]. right. exists 0. split; [lia|done].
Qed.

Lemma encode_text_one_hot (index : gmap N nat) (n rows : nat) (txt : text) :
  (forall c k, index !! c = Some k -> k < n) ->
  length txt <= rows ->
  length (encode_text index n rows txt) = rows
  /\ Forall (one_hot_or_zero n) (encode_text index n rows txt).
Proof.
  intros Hindex Hlen. unfold encode_text. split.
  - rewrite length_app, length_fmap, length_replicate. lia.
  - apply Forall_app. split.
    + apply Forall_fmap, Forall_forall. intros c _.
      by apply encode_one_hot_or_zero.
    + apply Forall_replicate. by apply encode_one_hot_or_zero.
Qed.

(** X10. The number of samples is the number of line breaks of the data
    file, capped at [num_samples].  Whenever the filling loops complete,
    the three arrays have one sample for each text, one row for each
    timestep up to the longest text and one entry for each token, and
    every row is all 0.0 or has a single 1.0. *)
Theorem arrays_shape (data : text) (g : tables) (a a' : arrays) :
  load_phase data = Ok (g, a) ->
  fill_phase g a = Ok a' ->
  length (input_texts g)
  = Nat.min num_samples (length (filter (fun c => c = NL) data))
  /\ one_hot_array (length (input_texts g)) (max_encoder_seq_length g)
       (num_encoder_tokens g) (encoder_input_data a')
  /\ one_hot_array (length (input_texts g)) (max_decoder_seq_length g)
       (num_decoder_tokens g) (decoder_input_data a')
  /\ one_hot_array (length (input_texts g)) (max_decoder_seq_length g)
       (num_decoder_tokens g) (decoder_target_data a').
Proof.
  intros Hload Hfill.
  pose proof (load_phase_Ok _ _ _ Hload) as (Hwf & -> & Hn & _).
  apply load_phase_samples in Hload as [Hne _].
  destruct (fill_phase_Ok_closed g Hwf a' Hne Hfill)
    as (_ & Hlen & -> & -> & Hrows).
  assert (forall c k, input_token_index g !! c = Some k ->
                      k < num_encoder_tokens g) as Hin_index.
  { intros c k Hk. by apply (input_token_index_Some g Hwf) in Hk as [_ ?]. }
  assert (forall c k, target_token_index g !! c = Some k ->
                      k < num_decoder_tokens g) as Htgt_index.
  { intros c k Hk. by apply (target_token_index_Some g Hwf) in Hk as [_ ?]. }
  split.
  { rewrite Hn. unfold loaded_lines.
    rewrite length_take, split_length. lia. }
  split; [|split].
  - split; [done|]. apply Forall_lookup. intros i sample Hsample.
    assert (is_Some (input_texts g !! i)) as [txt Htxt].
    { apply lookup_lt_is_Some. rewrite <- Hlen.
      by apply lookup_lt_Some in Hsample. }
    rewrite (Hrows i txt Htxt) in Hsample. injection Hsample as <-.
    destruct (proj1 (Forall_lookup _ _) (wf_input_texts g Hwf) i txt Htxt)
      as [Htxt_len _].
    destruct txt as [|c txt].
    + cbv zeta. split.
      * rewrite length_app, !length_replicate. lia.
      * apply Forall_app. split; apply Forall_replicate.
        -- by left.
        -- by apply encode_one_hot_or_zero.
    + by apply encode_text_one_hot.
  - unfold filled_arrays. cbn [decoder_input_data].
    split; [by rewrite length_fmap, (wf_samples g Hwf)|].
    apply Forall_fmap. eapply Forall_impl; [apply (wf_target_texts g Hwf)|].
    intros txt (Htxt_len & _). by apply encode_text_one_hot.
  - unfold filled_arrays. cbn [decoder_target_data].
    split; [by rewrite length_fmap, (wf_samples g Hwf)|].
    apply Forall_fmap. eapply Forall_impl; [apply (wf_target_texts g Hwf)|].
    intros txt (Htxt_len & _). apply encode_text_one_hot; [done|].
    destruct txt; simpl in *; lia.
Qed.

Lemma arrays_shape_witness :
  load_phase sample_data = Ok (sample_tables, zero_arrays sample_tables)
  /\ fill_phase sample_tables (zero_arrays sample_tables)
     = Ok (filled_arrays sample_tables)
  /\ length (input_texts sample_tables) = 2.
Proof.
  assert (load_phase sample_data
          = Ok (sample_tables, zero_arrays sample_tables)) as Hload
    by (vm_compute; reflexivity).
  assert (fill_phase sample_tables (zero_arrays sample_tables)
          = Ok (filled_arrays sample_tables)) as Hfill
    by (vm_compute; reflexivity).
  split; [exact Hload|]. split; [exact Hfill|].
  destruct (arrays_shape sample_data sample_tables
              (zero_arrays sample_tables) (filled_arrays sample_tables)
              Hload Hfill) as (Hcount & _).
  rewrite Hcount. vm_compute. reflexivity.
Defined.

(** ** The MLP notebook: reshaping errors *)


(** ** What the reading loop never reads *)

Lemma split_app_sep (sep : char) (s t : text) :
  split sep (s ++ sep :: t) = split sep s ++ split sep t.
Proof.
  induction s as [|c s IH]; simpl.
  - by rewrite N.eqb_refl.
  - destruct (c =? sep)%N; [by rewrite IH|].
    rewrite IH. destruct (split_fields sep s) as [Hne _].
    by destruct (split sep s).
Qed.

Lemma split_no_sep (sep : char) (t : text) :
  sep ∉ t -> split sep t = [t].
Proof.
  induction t as [|c t IH]; [done|]. rewrite not_elem_of_cons.
  intros [Hc Ht]. simpl.
  apply N.eqb_neq in Hc. rewrite N.eqb_sym, Hc. by rewrite IH.
Qed.

Lemma loaded_lines_trailing (data rest : text) :
  NL ∉ rest ->
  loaded_lines (data ++ NL :: rest) = take num_samples (split NL data).
Proof.
  intros Hrest. unfold loaded_lines.
  rewrite split_app_sep, (split_no_sep _ _ Hrest), length_app.
  cbn [length]. rewrite Nat.add_sub.
  rewrite take_app_le by lia.
  apply list_eq. intros i. rewrite !lookup_take.
  destruct (decide (i < length (split NL data))) as [Hi|Hi].
  - by repeat case_decide; try lia.
  - rewrite lookup_ge_None_2 by lia. by repeat case_decide.
Qed.

(** X13. The text after the last line break of the data file is never
    read: the tables and arrays the cell builds are the same whatever
    follows the last NL. *)
Theorem trailing_text_ignored (data rest : text) :
  NL ∉ rest ->
  load_phase (data ++ NL :: rest) = load_phase (data ++ [NL]).
Proof.
  intros Hrest. unfold load_phase.
  rewrite (loaded_lines_trailing data rest Hrest).
  by rewrite (loaded_lines_trailing data []) by apply not_elem_of_nil.
Qed.

Lemma trailing_text_ignored_witness :
  (NL ∉ [101; 9; 102]%N)
  /\ load_phase ([97; 9; 98; 9; 120]%N ++ NL :: [101; 9; 102]%N)
     = load_phase ([97; 9; 98; 9; 120]%N ++ [NL]).
Proof.
  assert (NL ∉ [101; 9; 102]%N) as Hrest.
  { rewrite !not_elem_of_cons. repeat split; try discriminate.
    apply not_elem_of_nil. }
  split; [exact Hrest|].
  exact (trailing_text_ignored [97; 9; 98; 9; 120]%N [101; 9; 102]%N Hrest).
Defined.
